(** * PokerService: hand evaluation and 6-player game simulation

    A shallow embedding of [backend/app/services/poker_service.py] and of
    the [add_action] endpoint of [backend/app/api/endpoints/hands.py].  The
    service is a thin layer over the third-party package [pokerkit]; that
    package is not part of the repository, so it enters the development as
    an interface ([PokerKit]) whose operations are exactly the calls and
    attribute reads the service makes, each of which may raise.  The
    database behind the endpoint enters in the same way ([Repository]).
    Every theorem holds for every implementation of the interfaces; an
    assumption on an implementation is a hypothesis of the theorem that
    needs it. *)

From Stdlib Require Import ZArith List String Ascii Bool Lia Permutation.
From Stdlib Require Import SpecFloat DecimalString DecimalNat.
Import ListNotations.
Local Open Scope string_scope.
Local Open Scope Z_scope.
Set Warnings "-register-all".
(** ** Python values and exceptions *)

(** Values that can sit in an action record (the endpoint takes actions as
    [Dict[str, Any]] parsed from JSON).  A float is an IEEE binary64 value. *)
Inductive pyval : Type :=
| VNone
| VBool (b : bool)
| VInt (z : Z)
| VFloat (f : spec_float)
| VStr (s : string)
| VList (l : list pyval)
| VDict (d : list (string * pyval)).

(** Python truthiness, as used by [if not action_type]. *)
Definition truthy (v : pyval) : bool :=
  match v with
  | VNone => false
  | VBool b => b
  | VInt z => negb (z =? 0)
  | VFloat f => match f with S754_zero _ => false | _ => true end
  | VStr s => negb (String.length s =? 0)%nat
  | VList l => negb (List.length l =? 0)%nat
  | VDict d => negb (List.length d =? 0)%nat
  end.

(** [isinstance(v, int)]: [bool] is a subclass of [int]. *)
Definition as_int (v : pyval) : option Z :=
  match v with
  | VInt z => Some z
  | VBool b => Some (if b then 1 else 0)
  | _ => None
  end.

(** A number as binary64, only used to compare a float with an int;
    integers met here are compared through their sign. *)
Definition float_le_zero (f : spec_float) : bool :=
  SFleb f (S754_zero false).

(** [isinstance(v, (int, float))] together with the test [v <= 0]:
    [None] when [v] is not a number. *)
Definition number_le_zero (v : pyval) : option bool :=
  match v with
  | VFloat f => Some (float_le_zero f)
  | _ => match as_int v with
         | Some z => Some (z <=? 0)
         | None => None
         end
  end.

(** An exception raised inside a library, with its message. *)
Definition lib_error : Type := string.
Definition lib_result (A : Type) : Type := (lib_error + A)%type.

(** Reasons for which [validate_action] returns [(False, message)]. *)
Inductive rejection : Type :=
| TypeRequired                      (* "Action type is required" *)
| InvalidActionType (v : pyval)     (* "Invalid action type: {action_type}" *)
| PlayerRequired                    (* "Player must be specified for this action type" *)
| InvalidPlayerIndex (v : pyval)    (* "Invalid player index: {player}" *)
| AmountRequired                    (* "Amount must be specified for this action type" *)
| InvalidAmount (v : pyval).        (* "Invalid amount: {amount}" *)

(** The exceptions of the service, one constructor per [raise] site. *)
Inductive error : Type :=
| AtLeastFiveCards                        (* "A hand must contain at least 5 cards" *)
| InvalidCardFormat (card : string)       (* "Invalid card format: {card_str}" *)
| DuplicateCard (card : string)           (* "Duplicate card: {card_str}" *)
| HandEvaluationFailed (e : lib_error)    (* "Hand evaluation failed: {e}" *)
| ExactlySixPlayers                       (* "Exactly 6 players are required" *)
| StacksNonNegative                       (* "Stacks must be non-negative integers" *)
| TooManyPlayers                          (* "Too many players specified in player_cards" *)
| TooManyBoardCards                       (* "Too many board cards" *)
| InvalidBoardCard                        (* "Invalid board card format" *)
| DuplicateBoardCards                     (* "Duplicate board cards" *)
| TwoHoleCards (player : Z)               (* "Player {player} must have exactly 2 hole cards" *)
| InvalidHoleCards (player : Z)           (* "Invalid hole cards for player {player}" *)
| InvalidPositionKeys                     (* "Invalid position keys" *)
| PositionIndices                         (* "Position indices must be between 0 and 5" *)
| FailedCreateState (e : lib_error)       (* "Failed to create game state: {e}" *)
| DuplicateCardsForPlayer (player : Z)    (* "Duplicate cards for player {player_idx}" *)
| FailedDeal (player : Z) (e : lib_error) (* "Failed to deal cards to player {player_idx}: {e}" *)
| InvalidAction (r : option rejection)    (* "Invalid action: {error}" *)
| FlopOnce                                (* "Flop can only be dealt once" *)
| TurnAfterFlop                           (* "Turn can only be dealt after flop" *)
| RiverAfterTurn                          (* "River can only be dealt after turn" *)
| ShowdownFailed (e : lib_error)          (* "Showdown failed: {e}" *)
| OnlySixPlayerGames                      (* "Only 6-player games are supported" *)
| StackSizePositive                       (* "Stack size must be a positive integer" *)
| FailedInitDeck                          (* "Failed to initialize deck: ..." *)
| NotEnoughToDeal                         (* "Not enough cards in deck to deal" *)
| NotEnoughForBoard                       (* "Not enough cards in deck for board" *)
| MissingKeys                             (* "Game state missing required keys" *)
| GameNotFound                            (* HTTP 404 "Game with ID {game_id} not found" *)
| BadRequest (r : option rejection)       (* HTTP 400, detail: the validator's message *)
| Http400 (e : error)                     (* HTTP 400, detail: the ValueError caught *)
| Http500 (e : error)                     (* HTTP 500 "Error processing action: {e}" *)
| RepositoryError (e : lib_error)         (* an exception of the save, caught by the endpoint *)
| IndexError                              (* list index out of range / pop from empty list *)
| Uncaught (e : lib_error).               (* a library exception that no handler wraps *)

Inductive result (A : Type) : Type :=
| Ok (a : A)
| Err (e : error).
Arguments Ok {A} a.
Arguments Err {A} e.

Definition bind {A B : Type} (m : result A) (k : A -> result B) : result B :=
  match m with
  | Ok a => k a
  | Err e => Err e
  end.

Declare Scope py_scope.
Delimit Scope py_scope with py.
Notation "x <- m ;; k" := (bind m (fun x => k))
  (at level 61, m at next level, right associativity) : py_scope.
Notation "'check' b 'else_raise' e ;; k" := (if b then k else Err e)
  (at level 61, b at next level, e at next level, right associativity) : py_scope.
Local Open Scope py_scope.

(** A library call or attribute read outside any [try]: its exception
    propagates. *)
Definition uncaught {A : Type} (m : lib_result A) : result A :=
  match m with
  | inr a => Ok a
  | inl e => Err (Uncaught e)
  end.

(** A call inside [try: ... except Exception as e: raise ValueError(...)]. *)
Definition wrapped {A : Type} (h : lib_error -> error) (m : lib_result A) : result A :=
  match m with
  | inr a => Ok a
  | inl e => Err (h e)
  end.

(** ** Strings *)

Definition str_nat (n : nat) : string := NilEmpty.string_of_uint (Nat.to_uint n).

(** [prefix]-test and [str.replace(old, new)]: occurrences are replaced from
    left to right without overlap; [skip] counts the characters of a matched
    occurrence that are still to be dropped. *)
Fixpoint replace_from (old new : string) (skip : nat) (s : string) : string :=
  match s with
  | EmptyString =>
      match old with EmptyString => new | _ => EmptyString end
  | String c rest =>
      match skip with
      | S k => replace_from old new k rest
      | O =>
          match old with
          | EmptyString => new ++ String c (replace_from old new O rest)
          | String _ _ =>
              if String.prefix old s
              then new ++ replace_from old new (String.length old - 1) rest
              else String c (replace_from old new O rest)
          end
      end
  end.

Definition replace (s old new : string) : string := replace_from old new O s.

(** [d.get(key, default)] on a dict written as a literal. *)
Fixpoint dict_get {V : Type} (d : list (string * V)) (key : string) (default : V) : V :=
  match d with
  | [] => default
  | (k, v) :: d' => if String.eqb k key then v else dict_get d' key default
  end.

Definition mem_string (s : string) (l : list string) : bool :=
  existsb (String.eqb s) l.

Definition mem_ascii (c : ascii) (l : list ascii) : bool :=
  existsb (Ascii.eqb c) l.

(** [len(set(l)) != len(l)]: some element occurs twice. *)
Fixpoint has_duplicates (l : list string) : bool :=
  match l with
  | [] => false
  | x :: l' => mem_string x l' || has_duplicates l'
  end.

(** ** Cards *)

(** pokerkit's [Card] as the service uses it: built as [Card(rank, suit)]
    and read back through [card.rank] and [card.suit]; the constructor
    stores its two arguments and does not raise. *)
Record Card : Type := { rank : ascii; suit : ascii }.

Definition Card_eqb (a b : Card) : bool :=
  Ascii.eqb (rank a) (rank b) && Ascii.eqb (suit a) (suit b).

(** [f"{card.rank}{card.suit}"] *)
Definition token (c : Card) : string :=
  String (rank c) (String (suit c) EmptyString).

Definition VALID_RANKS : list ascii := list_ascii_of_string "23456789TJQKA".
Definition VALID_SUITS : list ascii := list_ascii_of_string "shdc".

(** [_is_valid_card]; the argument is a [str] (the request models type the
    card lists as [List[str]]). *)
Definition _is_valid_card (card : string) : bool :=
  match card with
  | String r (String s EmptyString) => mem_ascii r VALID_RANKS && mem_ascii s VALID_SUITS
  | _ => false
  end.

(** [Card(card[0], card[1])] on a string of length at least 2. *)
Definition Card_of_token (card : string) : result Card :=
  match card with
  | String r (String s _) => Ok {| rank := r; suit := s |}
  | _ => Err IndexError
  end.

(** ** The pokerkit interface

    What the service imports from pokerkit and how it uses it.  Methods
    that mutate the state object become functions from the state to the
    next state.  Every call, and every attribute the service reads from a
    state or obtains through [str], returns [inl] with the message when it
    raises; the package is not in the repository, so nothing is assumed
    about which of them do.  [state.stacks] is read as a list. *)
Class PokerKit : Type := {
  (** [StandardHighHand(cards)] and the [cards] attribute of the object. *)
  Hand : Type;
  StandardHighHand : list Card -> lib_result Hand;
  hand_cards : Hand -> list Card;
  (** [str(card)] for a card built as [Card(rank, suit)] from two
      one-character strings. *)
  str_Card : Card -> lib_result string;
  (** The state object returned by [NoLimitTexasHoldem.create_state]; the
      service always passes the same automations, ante trimming [True],
      antes [0], blinds [(20, 40)], minimum bet [40] and player count [6],
      only the stacks vary. *)
  State : Type;
  LoggedAction : Type;
  create_state : list Z -> lib_result State;
  deal_hole : string -> Z -> State -> lib_result State;
  burn_card : State -> lib_result State;
  deal_board : string -> State -> lib_result State;
  fold : State -> lib_result State;
  check_or_call : State -> lib_result State;
  complete_bet_or_raise_to : pyval -> State -> lib_result State;
  show_or_muck_hole_cards : State -> lib_result State;
  stacks : State -> list Z;
  (** [state.actor], [state.min_raise_to], [state.is_terminal],
      [state.get_hole_cards(i)], [state.board_cards], [state.dealer],
      [state.actions] *)
  actor : State -> lib_result (option nat);
  min_raise_to : State -> lib_result pyval;
  is_terminal : State -> lib_result bool;
  get_hole_cards : State -> nat -> lib_result (list Card);
  board_cards : State -> lib_result (list Card);
  dealer : State -> lib_result Z;
  actions : State -> lib_result (list LoggedAction)
}.

(** ** The service object *)

(** [PokerService] instances carry one mutable attribute, the deck. *)
Record PokerService : Type := { deck : list Card }.

(** The dict returned by [evaluate_hand]. *)
Record HandResult : Type := {
  hand_type : string;
  hand_rank : Z;                 (* key "rank" *)
  best_cards : list string
}.

(** The literal [hand_ranks] of [evaluate_hand]. *)
Definition hand_ranks : list (string * Z) :=
  [ ("HighCard", 1); ("Pair", 2); ("TwoPair", 3); ("ThreeOfAKind", 4);
    ("Straight", 5); ("Flush", 6); ("FullHouse", 7); ("FourOfAKind", 8);
    ("StraightFlush", 9); ("RoyalFlush", 10) ].

(** [hand.__class__.__name__] for [hand = StandardHighHand(...)]: calling a
    class yields an instance of that class, whose name is the class's. *)
Definition StandardHighHand_class_name : string := "StandardHighHand".

Section HandService.
Context {kit : PokerKit}.

(** The validation loop of [evaluate_hand]: [seen_cards] is the set built so
    far, [card_objects] the list appended to. *)
Fixpoint convert_cards (cards : list string) (seen_cards : list string)
    (card_objects : list Card) : result (list Card) :=
  match cards with
  | [] => Ok card_objects
  | card_str :: cards' =>
      check _is_valid_card card_str else_raise InvalidCardFormat card_str ;;
      check negb (mem_string card_str seen_cards) else_raise DuplicateCard card_str ;;
      card <- Card_of_token card_str ;;
      convert_cards cards' (card_str :: seen_cards) (card_objects ++ [card])
  end.

Definition evaluate_hand (self : PokerService) (cards : list string) : result HandResult :=
  check negb (List.length cards <? 5)%nat else_raise AtLeastFiveCards ;;
  card_objects <- convert_cards cards [] [] ;;
  hand <- wrapped HandEvaluationFailed (StandardHighHand card_objects) ;;
  let hand_type := replace StandardHighHand_class_name "Hand" "" in
  let rank := dict_get hand_ranks hand_type 1 in
  let best_cards := map token (firstn 5 (hand_cards hand)) in
  Ok {| hand_type := hand_type; hand_rank := rank; best_cards := best_cards |}.

End HandService.

(** ** Actions and their validation *)

(** An action record: each key is absent ([None]) or bound to a value. *)
Record Action : Type := {
  a_type : option pyval;      (* key "type" *)
  a_player : option pyval;    (* key "player" *)
  a_amount : option pyval     (* key "amount" *)
}.

(** [d.get(key)] and [d.get(key, default)]. *)
Definition get (field : option pyval) : pyval :=
  match field with Some v => v | None => VNone end.
Definition get_default (field : option pyval) (default : pyval) : pyval :=
  match field with Some v => v | None => default end.

(** The game-state dict given to [validate_action]; a field is [None] when
    its key is missing.  [K] is the type of the player keys ([str] from
    [_state_to_dict], [int] from the stored games), [A] the type of the
    logged actions. *)
Record GameStateDict (K A : Type) : Type := {
  gs_stacks : option (list Z);
  gs_positions : option (list (string * Z));
  gs_player_cards : option (list (K * list string));
  gs_board_cards : option (list string);
  gs_actions : option (list A)
}.
Arguments gs_stacks {K A} _.
Arguments gs_positions {K A} _.
Arguments gs_player_cards {K A} _.
Arguments gs_board_cards {K A} _.
Arguments gs_actions {K A} _.

Definition is_some {A : Type} (o : option A) : bool :=
  match o with Some _ => true | None => false end.

(** [all(key in game_state for key in required_keys)] *)
Definition has_required_keys {K A : Type} (g : GameStateDict K A) : bool :=
  is_some (gs_stacks g) && is_some (gs_positions g) && is_some (gs_player_cards g)
  && is_some (gs_board_cards g) && is_some (gs_actions g).

(** [v in l] for a list [l] of string literals: only a [str] can be equal
    to one of them. *)
Definition val_in (v : pyval) (l : list string) : bool :=
  match v with
  | VStr s => mem_string s l
  | _ => false
  end.

Definition valid_action_types : list string :=
  [ "fold"; "check"; "call"; "bet"; "raise"; "allin";
    "deal_flop"; "deal_turn"; "deal_river" ].
Definition player_action_types : list string :=
  [ "fold"; "check"; "call"; "bet"; "raise"; "allin" ].
Definition sized_action_types : list string := [ "bet"; "raise" ].

(** [not isinstance(player, int) or player < 0 or player >= len(stacks)] *)
Definition bad_player_index (player : pyval) (n : nat) : bool :=
  match as_int player with
  | None => true
  | Some p => (p <? 0) || (p >=? Z.of_nat n)
  end.

(** [not isinstance(amount, (int, float)) or amount <= 0] *)
Definition bad_amount (amount : pyval) : bool :=
  match number_le_zero amount with
  | None => true
  | Some b => b
  end.

Definition is_none (v : pyval) : bool :=
  match v with VNone => true | _ => false end.

Definition accept : result (bool * option rejection) := Ok (true, None).
Definition reject (r : rejection) : result (bool * option rejection) :=
  Ok (false, Some r).

Definition validate_action {K A : Type} (self : PokerService)
    (game_state : GameStateDict K A) (action : Action)
    : result (bool * option rejection) :=
  check has_required_keys game_state else_raise MissingKeys ;;
  let action_type := get (a_type action) in
  if negb (truthy action_type) then reject TypeRequired else
  if negb (val_in action_type valid_action_types)
  then reject (InvalidActionType action_type) else
  let n_stacks := match gs_stacks game_state with
                  | Some l => List.length l | None => O end in
  let player_error :=
    if val_in action_type player_action_types then
      let player := get (a_player action) in
      if is_none player then Some PlayerRequired
      else if bad_player_index player n_stacks then Some (InvalidPlayerIndex player)
      else None
    else None in
  let amount_error :=
    if val_in action_type sized_action_types then
      let amount := get (a_amount action) in
      if is_none amount then Some AmountRequired
      else if bad_amount amount then Some (InvalidAmount amount)
      else None
    else None in
  match player_error with
  | Some r => reject r
  | None =>
      match amount_error with
      | Some r => reject r
      | None => accept
      end
  end.

(** ** Adding an action to a stored game *)

(** The stored game ([PokerHand] of [models/hand.py]). *)
Record PokerHand : Type := {
  ph_id : option string;
  ph_stacks : list Z;
  ph_positions : list (string * Z);
  ph_player_cards : list (Z * list string);
  ph_board_cards : list string;
  ph_actions : list Action;
  ph_results : list (Z * Z)
}.

(** An exception of a repository call, as the handlers of the endpoint
    tell exceptions apart: a [ValueError] or any other exception. *)
Inductive exn : Type :=
| ValueError (message : lib_error)
| OtherException (message : lib_error).

Definition str_exn (e : exn) : lib_error :=
  match e with ValueError m => m | OtherException m => m end.

(** The two methods of [HandRepository] that the endpoint calls.  Both run
    SQL against the database and may raise; [get_poker_hand] returns [None]
    when no row has the id, [create_poker_hand] returns the object it was
    given, which the endpoint reads afterwards. *)
Class Repository : Type := {
  get_poker_hand : string -> exn + option PokerHand;
  create_poker_hand : PokerHand -> exn + PokerHand
}.

(** [game.actions.append(action)] *)
Definition record_action (game : PokerHand) (action : Action) : PokerHand :=
  {| ph_id := ph_id game; ph_stacks := ph_stacks game;
     ph_positions := ph_positions game;
     ph_player_cards := ph_player_cards game;
     ph_board_cards := ph_board_cards game;
     ph_actions := (ph_actions game ++ [action])%list;
     ph_results := ph_results game |}.

(** The dict that the endpoint hands to [validate_action]. *)
Definition game_dict (game : PokerHand) : GameStateDict Z Action :=
  {| gs_stacks := Some (ph_stacks game);
     gs_positions := Some (ph_positions game);
     gs_player_cards := Some (ph_player_cards game);
     gs_board_cards := Some (ph_board_cards game);
     gs_actions := Some (ph_actions game) |}.

(** The body of the endpoint [add_action] of [api/endpoints/hands.py],
    from the game id and the action to the game that is returned.  The
    lookup is outside the [try]: its exception propagates.  Inside the
    [try], a [ValueError] is answered 400 and any other exception 500; the
    400 that the endpoint raises for a rejected action is itself caught by
    [except Exception] and answered 500. *)
Definition add_action {repository : Repository} (poker_service : PokerService)
    (game_id : string) (action : Action) : result PokerHand :=
  match get_poker_hand game_id with
  | inl e => Err (Uncaught (str_exn e))
  | inr None => Err GameNotFound
  | inr (Some game) =>
      match validate_action poker_service (game_dict game) action with
      | Err e => Err (Http400 e)
      | Ok (is_valid, error) =>
          if negb is_valid then Err (Http500 (BadRequest error))
          else
            match create_poker_hand (record_action game action) with
            | inl (ValueError m) => Err (Http400 (RepositoryError m))
            | inl (OtherException m) => Err (Http500 (RepositoryError m))
            | inr game => Ok game
            end
      end
  end.

(** ** Game evaluation *)

Section GameService.
Context {kit : PokerKit}.

(** The loop of [_state_to_dict] over [range(6)]: the hole cards of the
    players that hold some, under the keys [str(i)]. *)
Fixpoint hole_entries_of (state : State) (players : list nat)
    : result (list (string * list string)) :=
  match players with
  | [] => Ok []
  | i :: players' =>
      cards <- uncaught (get_hole_cards state i) ;;
      entries <- hole_entries_of state players' ;;
      Ok (match cards with
          | [] => entries
          | _ => (str_nat i, map token cards) :: entries
          end)
  end.

Definition hole_entries (state : State) : result (list (string * list string)) :=
  hole_entries_of state (seq 0 6).

(** [_state_to_dict]: the reads are made in the order of the source, none
    of them inside a [try]. *)
Definition _state_to_dict (self : PokerService) (state : State)
    : result (GameStateDict string LoggedAction) :=
  player_cards <- hole_entries state ;;
  board <- uncaught (board_cards state) ;;
  let board_cards := map token board in
  dealer_pos <- uncaught (dealer state) ;;
  logged <- uncaught (actions state) ;;
  Ok {| gs_stacks := Some (stacks state);
        gs_positions := Some [ ("dealer", dealer_pos);
                               ("sb", (dealer_pos + 1) mod 6);
                               ("bb", (dealer_pos + 2) mod 6) ];
        gs_player_cards := Some player_cards;
        gs_board_cards := Some board_cards;
        gs_actions := Some logged |}.

(** [''.join(str(Card(card[0], card[1])) for card in cards)], outside any
    [try] at each of its uses. *)
Fixpoint join_cards (cards : list string) : result string :=
  match cards with
  | [] => Ok ""
  | card :: cards' =>
      c <- Card_of_token card ;;
      s <- uncaught (str_Card c) ;;
      rest <- join_cards cards' ;;
      Ok (s ++ rest)%string
  end.

(** The first loop over [player_cards.items()]. *)
Fixpoint check_hole_cards (player_cards : list (Z * list string)) : result unit :=
  match player_cards with
  | [] => Ok tt
  | (player, cards) :: rest =>
      check (List.length cards =? 2)%nat else_raise TwoHoleCards player ;;
      check forallb _is_valid_card cards else_raise InvalidHoleCards player ;;
      check_hole_cards rest
  end.

(** The dealing loop: [all_cards] is the set of cards met so far. *)
Fixpoint deal_hole_cards (player_cards : list (Z * list string))
    (all_cards : list string) (state : State) : result State :=
  match player_cards with
  | [] => Ok state
  | (player_idx, cards) :: rest =>
      check negb (existsb (fun card => mem_string card all_cards) cards)
        else_raise DuplicateCardsForPlayer player_idx ;;
      let all_cards := (all_cards ++ cards)%list in
      card_str <- join_cards cards ;;
      state <- wrapped (FailedDeal player_idx) (deal_hole card_str player_idx state) ;;
      deal_hole_cards rest all_cards state
  end.

(** [board_cards[3]] and [board_cards[4]], read only when the list is long
    enough. *)
Definition deal_one (board : list string) (i : nat) (state : State) : result State :=
  if (i <? List.length board)%nat then
    card <- match nth_error board i with Some c => Ok c | None => Err IndexError end ;;
    c <- Card_of_token card ;;
    card_str <- uncaught (str_Card c) ;;
    uncaught (deal_board card_str state)
  else Ok state.

(** The branch of the loop body that an accepted action takes. *)
Definition perform (board : list string) (loop : State * Z) (action : Action)
    : result (State * Z) :=
  let '(state, street_cards_dealt) := loop in
  match get (a_type action) with
  | VStr action_type =>
      if (action_type =? "deal_flop")%string then
        check (street_cards_dealt =? 0)%Z else_raise FlopOnce ;;
        state <- uncaught (burn_card state) ;;
        card_str <- join_cards (firstn 3 board) ;;
        state <- uncaught (deal_board card_str state) ;;
        Ok (state, 3)
      else if (action_type =? "deal_turn")%string then
        check (street_cards_dealt =? 3)%Z else_raise TurnAfterFlop ;;
        state <- uncaught (burn_card state) ;;
        state <- deal_one board 3 state ;;
        Ok (state, 4)
      else if (action_type =? "deal_river")%string then
        check (street_cards_dealt =? 4)%Z else_raise RiverAfterTurn ;;
        state <- uncaught (burn_card state) ;;
        state <- deal_one board 4 state ;;
        Ok (state, 5)
      else if (action_type =? "fold")%string then
        state <- uncaught (fold state) ;;
        Ok (state, street_cards_dealt)
      else if (action_type =? "check")%string then
        state <- uncaught (check_or_call state) ;;
        Ok (state, street_cards_dealt)
      else if (action_type =? "call")%string then
        state <- uncaught (check_or_call state) ;;
        Ok (state, street_cards_dealt)
      else if (action_type =? "bet")%string then
        state <- uncaught (complete_bet_or_raise_to
                             (get_default (a_amount action) (VInt 40)) state) ;;
        Ok (state, street_cards_dealt)
      else if (action_type =? "raise")%string then
        default <- uncaught (min_raise_to state) ;;
        state <- uncaught (complete_bet_or_raise_to
                             (get_default (a_amount action) default) state) ;;
        Ok (state, street_cards_dealt)
      else if (action_type =? "allin")%string then
        current_player <- uncaught (actor state) ;;
        match current_player with
        | Some current_player =>
            stack <- match nth_error (stacks state) current_player with
                     | Some z => Ok z | None => Err IndexError end ;;
            state <- uncaught (complete_bet_or_raise_to (VInt stack) state) ;;
            Ok (state, street_cards_dealt)
        | None => Ok (state, street_cards_dealt)
        end
      else Ok (state, street_cards_dealt)
  | _ => Ok (state, street_cards_dealt)
  end.

(** The body of the loop over [actions]; the loop carries the state object
    and [street_cards_dealt]. *)
Definition apply_action (self : PokerService) (board : list string)
    (loop : State * Z) (action : Action) : result (State * Z) :=
  game_state <- _state_to_dict self (fst loop) ;;
  verdict <- validate_action self game_state action ;;
  let '(valid, error) := verdict in
  check valid else_raise InvalidAction error ;;
  perform board loop action.

Fixpoint process_actions (self : PokerService) (board : list string)
    (loop : State * Z) (actions : list Action) : result (State * Z) :=
  match actions with
  | [] => Ok loop
  | action :: rest =>
      loop <- apply_action self board loop action ;;
      process_actions self board loop rest
  end.

(** [enumerate(zip(initial_stacks, state.stacks))] into [results[str(i)]]. *)
Fixpoint net_results (i : nat) (initial final : list Z) : list (string * Z) :=
  match initial, final with
  | a :: initial', b :: final' => (str_nat i, b - a) :: net_results (S i) initial' final'
  | _, _ => []
  end.

Definition valid_position (entry : string * Z) : bool :=
  mem_string (fst entry) [ "dealer"; "sb"; "bb" ].
Definition valid_position_index (entry : string * Z) : bool :=
  (0 <=? snd entry) && (snd entry <? 6).

Definition evaluate_poker_game (self : PokerService)
    (player_cards : list (Z * list string)) (board_cards : list string)
    (actions : list Action) (stacks0 : list Z) (positions : list (string * Z))
    : result (list (string * Z)) :=
  check (List.length stacks0 =? 6)%nat else_raise ExactlySixPlayers ;;
  check forallb (fun stack => 0 <=? stack) stacks0 else_raise StacksNonNegative ;;
  check (List.length player_cards <=? 6)%nat else_raise TooManyPlayers ;;
  check (List.length board_cards <=? 5)%nat else_raise TooManyBoardCards ;;
  check forallb _is_valid_card board_cards else_raise InvalidBoardCard ;;
  check negb (has_duplicates board_cards) else_raise DuplicateBoardCards ;;
  _ <- check_hole_cards player_cards ;;
  check forallb valid_position positions else_raise InvalidPositionKeys ;;
  check forallb valid_position_index positions else_raise PositionIndices ;;
  state <- wrapped FailedCreateState (create_state stacks0) ;;
  state <- deal_hole_cards player_cards board_cards state ;;
  let initial_stacks := stacks state in
  loop <- process_actions self board_cards (state, 0) actions ;;
  let '(state, street_cards_dealt) := loop in
  terminal <- uncaught (is_terminal state) ;;
  state <- (if negb terminal && (street_cards_dealt =? 5)%Z
            then wrapped ShowdownFailed (show_or_muck_hole_cards state)
            else Ok state) ;;
  Ok (net_results 0 initial_stacks (stacks state)).

(** [_convert_to_pokerkit_state]: a fresh state over the stacks of the
    dict, no card dealt. *)
Definition _convert_to_pokerkit_state {K A : Type} (self : PokerService)
    (game_state : GameStateDict K A) : result State :=
  check has_required_keys game_state else_raise MissingKeys ;;
  match gs_stacks game_state with
  | Some stacks0 => wrapped FailedCreateState (create_state stacks0)
  | None => Err MissingKeys
  end.

End GameService.

(** ** Game creation *)

(** What [create_new_game] takes from the Python runtime: the iteration
    orders of the two class-level sets, the outcome of [random.shuffle] and
    the value of [uuid.uuid4()]. *)
Record Runtime : Type := {
  rank_order : list ascii;
  suit_order : list ascii;
  shuffle : list Card -> list Card;
  uuid4 : string
}.

(** Iterating a set visits each element once; shuffling permutes. *)
Record sound_runtime (rt : Runtime) : Prop := {
  ranks_visited : Permutation (rank_order rt) VALID_RANKS;
  suits_visited : Permutation (suit_order rt) VALID_SUITS;
  shuffle_permutes : forall l, Permutation (shuffle rt l) l
}.
Arguments ranks_visited {rt} _.
Arguments suits_visited {rt} _.
Arguments shuffle_permutes {rt} _ _.

Definition _create_standard_deck (rt : Runtime) : list Card :=
  flat_map (fun r => map (fun s => {| rank := r; suit := s |}) (suit_order rt))
           (rank_order rt).

(** [__init__] *)
Definition __init__ (rt : Runtime) : result PokerService :=
  let deck := _create_standard_deck rt in
  check (List.length deck =? 52)%nat else_raise FailedInitDeck ;;
  Ok {| deck := deck |}.

(** [list.pop()]: removes and returns the last element. *)
Definition pop (l : list Card) : result (Card * list Card) :=
  match rev l with
  | [] => Err IndexError
  | c :: r => Ok (c, rev r)
  end.

(** The dict returned by [create_new_game]. *)
Record Game : Type := {
  g_id : string;
  g_stacks : list Z;
  g_positions : list (string * Z);
  g_player_cards : list (string * list string);
  g_board_cards : list string;
  g_actions : list Action
}.

(** The loop [for i in range(num_players)] that deals the hole cards. *)
Fixpoint deal_players (players : list nat) (deck : list Card)
    (player_cards : list (string * list string))
    : result (list (string * list string) * list Card) :=
  match players with
  | [] => Ok (player_cards, deck)
  | i :: rest =>
      check negb (List.length deck <? 2)%nat else_raise NotEnoughToDeal ;;
      p1 <- pop deck ;;
      let '(card1, deck) := p1 in
      p2 <- pop deck ;;
      let '(card2, deck) := p2 in
      deal_players rest deck
        (player_cards ++ [(str_nat i, [token card1; token card2])])%list
  end.

Definition create_new_game (rt : Runtime) (self : PokerService)
    (num_players : Z) (stack_size : Z) : result (Game * PokerService) :=
  check (num_players =? 6) else_raise OnlySixPlayerGames ;;
  check negb (stack_size <=? 0) else_raise StackSizePositive ;;
  let deck := _create_standard_deck rt in
  check (List.length deck =? 52)%nat else_raise FailedInitDeck ;;
  let deck := shuffle rt deck in
  let dealer_pos := 0 in
  let sb_pos := (dealer_pos + 1) mod 6 in
  let bb_pos := (dealer_pos + 2) mod 6 in
  dealt <- deal_players (seq 0 (Z.to_nat num_players)) deck [] ;;
  let '(player_cards, deck) := dealt in
  check negb (List.length deck <? 8)%nat else_raise NotEnoughForBoard ;;
  p <- pop deck ;; let '(burn1, deck) := p in
  p <- pop deck ;; let '(flop1, deck) := p in
  p <- pop deck ;; let '(flop2, deck) := p in
  p <- pop deck ;; let '(flop3, deck) := p in
  p <- pop deck ;; let '(burn2, deck) := p in
  p <- pop deck ;; let '(turn_card, deck) := p in
  p <- pop deck ;; let '(burn3, deck) := p in
  p <- pop deck ;; let '(river_card, deck) := p in
  let board_cards := map token [flop1; flop2; flop3; turn_card; river_card] in
  Ok ({| g_id := uuid4 rt;
         g_stacks := repeat stack_size (Z.to_nat num_players);
         g_positions := [ ("dealer", dealer_pos); ("sb", sb_pos); ("bb", bb_pos) ];
         g_player_cards := player_cards;
         g_board_cards := board_cards;
         g_actions := [] |},
      {| deck := deck |}).

(** ** The hand ranking the specification asks for

    Written after the specification's data model and hand-evaluator
    sections, not after the service: the category of a five-card hand, its
    tie-break sequence, and the best hand over all five-card choices.  It is
    the yardstick [evaluate_hand] is compared with. *)
Module HandSpec.

Inductive HandCategory : Type :=
| HighCard | Pair | TwoPair | ThreeOfAKind | Straight
| Flush | FullHouse | FourOfAKind | StraightFlush | RoyalFlush.

Definition category_rank (c : HandCategory) : Z :=
  match c with
  | HighCard => 1 | Pair => 2 | TwoPair => 3 | ThreeOfAKind => 4 | Straight => 5
  | Flush => 6 | FullHouse => 7 | FourOfAKind => 8 | StraightFlush => 9
  | RoyalFlush => 10
  end.

Definition category_name (c : HandCategory) : string :=
  match c with
  | HighCard => "HighCard" | Pair => "Pair" | TwoPair => "TwoPair"
  | ThreeOfAKind => "ThreeOfAKind" | Straight => "Straight" | Flush => "Flush"
  | FullHouse => "FullHouse" | FourOfAKind => "FourOfAKind"
  | StraightFlush => "StraightFlush" | RoyalFlush => "RoyalFlush"
  end.

Definition all_categories : list HandCategory :=
  [ HighCard; Pair; TwoPair; ThreeOfAKind; Straight;
    Flush; FullHouse; FourOfAKind; StraightFlush; RoyalFlush ].

(** Rank values: 2..9, T = 10, J = 11, Q = 12, K = 13, A = 14. *)
Fixpoint position (c : ascii) (l : list ascii) : Z :=
  match l with
  | [] => 0
  | x :: l' => if Ascii.eqb c x then 0 else 1 + position c l'
  end.
Definition rank_value (c : Card) : Z := 2 + position (rank c) VALID_RANKS.

Record HandRank : Type := {
  category : HandCategory;
  tiebreak : list Z;
  best5 : list Card
}.

(** Insertion sort, descending in the key. *)
Fixpoint insert_desc {A : Type} (key : A -> Z) (x : A) (l : list A) : list A :=
  match l with
  | [] => [x]
  | y :: l' => if key y <? key x then x :: l else y :: insert_desc key x l'
  end.
Definition sort_desc {A : Type} (key : A -> Z) (l : list A) : list A :=
  List.fold_right (insert_desc key) [] l.

Definition count_rank (v : Z) (vals : list Z) : Z :=
  Z.of_nat (List.length (filter (Z.eqb v) vals)).

Fixpoint dedup (vals : list Z) : list Z :=
  match vals with
  | [] => []
  | v :: vals' => if existsb (Z.eqb v) vals' then dedup vals' else v :: dedup vals'
  end.

(** The histogram of the five ranks, largest group first, higher rank first
    among groups of one size. *)
Definition histogram (vals : list Z) : list (Z * Z) :=
  sort_desc (fun g => fst g * 15 + snd g)
            (map (fun v => (count_rank v vals, v)) (dedup vals)).

Definition is_flush (cards : list Card) : bool :=
  match cards with
  | [] => true
  | c :: cards' => forallb (fun d => Ascii.eqb (suit d) (suit c)) cards'
  end.

Definition wheel : list Z := [14; 5; 4; 3; 2].

(** [vals] is sorted descending. *)
Definition is_straight (vals : list Z) : bool :=
  match vals with
  | [a; b; c; d; e] =>
      ((a =? b + 1) && (b =? c + 1) && (c =? d + 1) && (d =? e + 1))
      || forallb (fun p => fst p =? snd p) (combine vals wheel)
  | _ => false
  end.

Definition is_wheel (vals : list Z) : bool :=
  (List.length vals =? 5)%nat && forallb (fun p => fst p =? snd p) (combine vals wheel).

(** Scoring of one five-card combination. *)
Definition score (cards : list Card) : HandRank :=
  let sorted := sort_desc rank_value cards in
  let vals := map rank_value sorted in
  let hist := histogram vals in
  let flush := is_flush cards in
  let straight := is_straight vals in
  let straight_vals := if is_wheel vals then [5; 4; 3; 2; 1] else vals in
  let by_group := map snd hist in
  let cat :=
    if flush && straight then
      (if (hd 0 straight_vals =? 14) then RoyalFlush else StraightFlush)
    else match map fst hist with
         | 4 :: _ => FourOfAKind
         | 3 :: 2 :: _ => FullHouse
         | counts =>
             if flush then Flush
             else if straight then Straight
             else match counts with
                  | 3 :: _ => ThreeOfAKind
                  | 2 :: 2 :: _ => TwoPair
                  | 2 :: _ => Pair
                  | _ => HighCard
                  end
         end in
  {| category := cat;
     tiebreak := if straight then straight_vals else by_group;
     best5 := sorted |}.

Fixpoint lex_ltb (a b : list Z) : bool :=
  match a, b with
  | x :: a', y :: b' => (x <? y) || ((x =? y) && lex_ltb a' b')
  | [], _ :: _ => true
  | _, _ => false
  end.

(** First by category, then lexicographically by tie-break. *)
Definition rank_ltb (h1 h2 : HandRank) : bool :=
  (category_rank (category h1) <? category_rank (category h2))
  || ((category_rank (category h1) =? category_rank (category h2))
      && lex_ltb (tiebreak h1) (tiebreak h2)).

(** All ways of choosing [k] of the cards, order kept. *)
Fixpoint combinations {A : Type} (k : nat) (l : list A) : list (list A) :=
  match k, l with
  | O, _ => [[]]
  | S _, [] => []
  | S k', x :: l' => (map (cons x) (combinations k' l') ++ combinations k l')%list
  end.

Definition better (h1 h2 : HandRank) : HandRank :=
  if rank_ltb h1 h2 then h2 else h1.

(** The best hand obtainable by choosing exactly five of the cards. *)
Definition best_hand (cards : list Card) : option HandRank :=
  match map score (combinations 5 cards) with
  | [] => None
  | h :: hs => Some (List.fold_left better hs h)
  end.

End HandSpec.

(** ** Vocabulary of the statements *)

(** What [validate_action] looks at, said without the code: a known type
    name, an integer player index within the stacks for a player action,
    and for a bet or a raise an amount that passes the test
    [isinstance(amount, (int, float)) and not amount <= 0]: an integer (or
    [True]) greater than 0, a float greater than 0 (infinity included), or
    the float NaN, for which every comparison is false. *)
Definition index_below (n : nat) (v : pyval) : Prop :=
  exists p, as_int v = Some p /\ 0 <= p < Z.of_nat n.
Definition accepted_amount (v : pyval) : Prop :=
  (exists z, as_int v = Some z /\ 0 < z)
  \/ (exists f, v = VFloat f
                /\ (SFltb (S754_zero false) f = true \/ f = S754_nan)).
Definition well_shaped (n : nat) (a : Action) : Prop :=
  exists ty, get (a_type a) = VStr ty
    /\ In ty valid_action_types
    /\ (In ty player_action_types -> index_below n (get (a_player a)))
    /\ (In ty sized_action_types -> accepted_amount (get (a_amount a))).

Definition mk_action (ty : string) (player amount : option pyval) : Action :=
  {| a_type := Some (VStr ty); a_player := player; a_amount := amount |}.

(** A card of one player that is already on the board or in the hand of a
    player dealt earlier. *)
Definition crosses (player_cards : list (Z * list string)) (board : list string) : Prop :=
  exists before p cards after c,
    player_cards = (before ++ (p, cards) :: after)%list
    /\ In c cards
    /\ In c (board ++ flat_map snd before)%list.

(** A card of the 52: its rank and its suit are valid. *)
Definition standard_card (c : Card) : Prop :=
  In (rank c) VALID_RANKS /\ In (suit c) VALID_SUITS.

(** What [evaluate_hand] returns once pokerkit has built the hand. *)
Definition hand_result {kit : PokerKit} (hand : Hand) : HandResult :=
  {| hand_type := "StandardHigh"; hand_rank := 1;
     best_cards := map token (firstn 5 (hand_cards hand)) |}.

(** The errors of [evaluate_poker_game] that the service raises itself, by
    stage: the argument checks, the creation of the state and the dealing
    of the hole cards, one of the actions. *)
Definition argument_error (e : error) : Prop :=
  e = ExactlySixPlayers \/ e = StacksNonNegative \/ e = TooManyPlayers
  \/ e = TooManyBoardCards \/ e = InvalidBoardCard \/ e = DuplicateBoardCards
  \/ (exists p, e = TwoHoleCards p) \/ (exists p, e = InvalidHoleCards p)
  \/ e = InvalidPositionKeys \/ e = PositionIndices.

Definition dealing_error (e : error) : Prop :=
  (exists m, e = FailedCreateState m)
  \/ (exists p, e = DuplicateCardsForPlayer p)
  \/ (exists p m, e = FailedDeal p m).

Definition action_error (a : Action) (e : error) : Prop :=
  (exists r, e = InvalidAction (Some r))
  \/ e = FlopOnce \/ e = TurnAfterFlop \/ e = RiverAfterTurn
  \/ (e = IndexError /\ get (a_type a) = VStr "allin").

(** The message of an exception raised by one of the uses of pokerkit that
    [evaluate_poker_game] makes outside a [try]. *)
Definition raised_by_pokerkit {kit : PokerKit} (m : lib_error) : Prop :=
  (exists c, str_Card c = inl m)
  \/ (exists st i, get_hole_cards st i = inl m)
  \/ (exists st, board_cards st = inl m)
  \/ (exists st, dealer st = inl m)
  \/ (exists st, actions st = inl m)
  \/ (exists st, burn_card st = inl m)
  \/ (exists s st, deal_board s st = inl m)
  \/ (exists st, fold st = inl m)
  \/ (exists st, check_or_call st = inl m)
  \/ (exists a st, complete_bet_or_raise_to a st = inl m)
  \/ (exists st, min_raise_to st = inl m)
  \/ (exists st, actor st = inl m)
  \/ (exists st, is_terminal st = inl m).

(** Hole cards as the argument checks want them: two well-formed tokens. *)
Definition two_valid_cards {K : Type} (entry : K * list string) : Prop :=
  List.length (snd entry) = 2%nat
  /\ Forall (fun s => _is_valid_card s = true) (snd entry).

(** The street actions of an action list, in the order they occur, and the
    street actions behind a count of dealt board cards. *)
Definition street_actions : list string := [ "deal_flop"; "deal_turn"; "deal_river" ].
Definition streets (acts : list Action) : list pyval :=
  filter (fun ty => val_in ty street_actions) (map (fun a => get (a_type a)) acts).
Definition street_count (street_cards_dealt : Z) : nat :=
  if street_cards_dealt =? 3 then 1
  else if street_cards_dealt =? 4 then 2
  else if street_cards_dealt =? 5 then 3
  else 0.
Definition dealt_streets (street_cards_dealt : Z) : list pyval :=
  map VStr (firstn (street_count street_cards_dealt) street_actions).
Definition street_counter (n : Z) : Prop := n = 0 \/ n = 3 \/ n = 4 \/ n = 5.

(** ** Sample inputs *)

Definition royal_flush : list string := [ "As"; "Ks"; "Qs"; "Js"; "Ts" ].
Definition full_house : list string := [ "2h"; "2d"; "2c"; "3h"; "3d" ].

Definition cards_of (tokens : list string) : list Card :=
  map (fun t => match t with
                | String r (String s _) => {| rank := r; suit := s |}
                | _ => {| rank := "?"%char; suit := "?"%char |}
                end) tokens.

Definition svc0 : PokerService := {| deck := [] |}.
Definition six_stacks : list Z := [1000; 1000; 1000; 1000; 1000; 1000].
Definition sample_cards : list (Z * list string) :=
  [ (0, ["Ah"; "Kd"]); (1, ["Qc"; "Js"]); (2, ["Td"; "9h"]);
    (3, ["8c"; "7s"]); (4, ["6d"; "5h"]); (5, ["4c"; "3s"]) ].
Definition sample_board : list string := [ "As"; "Ks"; "Qs"; "2s"; "Ts" ].
Definition ace_of_spades : Card := {| rank := "A"%char; suit := "s"%char |}.

Definition dealer_positions : list (string * Z) :=
  [ ("dealer", 0); ("sb", 1); ("bb", 2) ].

(** The binary64 value 0.5. *)
Definition half : spec_float := S754_finite false 1 (-1).

Definition call_by_3 : Action := mk_action "call" (Some (VInt 3)) None.
Definition call_by_5 : Action := mk_action "call" (Some (VInt 5)) None.
Definition check_by_3 : Action := mk_action "check" (Some (VInt 3)) None.
Definition check_by_4 : Action := mk_action "check" (Some (VInt 4)) None.
Definition fold_by_3 : Action := mk_action "fold" (Some (VInt 3)) None.
Definition fold_by_5 : Action := mk_action "fold" (Some (VInt 5)) None.
Definition deal_turn_first : Action := mk_action "deal_turn" None None.
Definition bet_100_by_3 : Action :=
  mk_action "bet" (Some (VInt 3)) (Some (VInt 100)).
Definition raise_1_by_4 : Action :=
  mk_action "raise" (Some (VInt 4)) (Some (VInt 1)).
Definition bet_5000_by_3 : Action :=
  mk_action "bet" (Some (VInt 3)) (Some (VInt 5000)).
Definition bet_without_amount : Action := mk_action "bet" (Some (VInt 3)) None.

Definition sample_dict : GameStateDict Z Action :=
  {| gs_stacks := Some six_stacks;
     gs_positions := Some dealer_positions;
     gs_player_cards := Some [];
     gs_board_cards := Some [];
     gs_actions := Some [] |}.

(** A stored game as [create_new_game] leaves it, and the same game after
    the actions listed: six stacks of 1000, the dealer at seat 0. *)
Definition stored_game_after (acts : list Action) : PokerHand :=
  {| ph_id := Some "123e4567-e89b-12d3-a456-426614174000";
     ph_stacks := six_stacks;
     ph_positions := dealer_positions;
     ph_player_cards := sample_cards;
     ph_board_cards := sample_board;
     ph_actions := acts;
     ph_results := [] |}.
Definition stored_game : PokerHand := stored_game_after [].

(** A runtime that visits the sets in the order they are written and
    "shuffles" by reversing the deck. *)
Definition rt0 : Runtime :=
  {| rank_order := VALID_RANKS; suit_order := VALID_SUITS;
     shuffle := @rev Card; uuid4 := "123e4567-e89b-12d3-a456-426614174000" |}.

(** The hole cards of the players listed, two consecutive cards each. *)
Fixpoint seat_entries (players : list nat) (dealt : list Card)
    : list (string * list string) :=
  match players, dealt with
  | i :: players', c1 :: c2 :: dealt' =>
      (str_nat i, [token c1; token c2]) :: seat_entries players' dealt'
  | _, _ => []
  end.

(** The game made of twenty cards in the order they were popped: twelve
    hole cards, then burn, flop, burn, turn, burn, river. *)
Definition dealt_game (rt : Runtime) (stack_size : Z) (dealt : list Card) : Game :=
  let card := fun i => token (nth i dealt ace_of_spades) in
  {| g_id := uuid4 rt;
     g_stacks := repeat stack_size 6;
     g_positions := dealer_positions;
     g_player_cards := seat_entries (seq 0 6) dealt;
     g_board_cards := [card 13%nat; card 14%nat; card 15%nat; card 17%nat; card 19%nat];
     g_actions := [] |}.

(** The game that [create_new_game] makes on the sample runtime, and its
    hole cards under integer keys, as a stored game has them. *)
Definition new_game0 : Game :=
  dealt_game rt0 1000 (rev (skipn 32 (shuffle rt0 (_create_standard_deck rt0)))).
Definition stored_hole_cards (game : Game) : list (Z * list string) :=
  combine [0; 1; 2; 3; 4; 5] (map snd (g_player_cards game)).

(** ** Two small implementations of the interfaces

    They serve to instantiate the theorems.  In [bare_kit] the state is the
    list of stacks; [str] of a card and every attribute that the service
    reads besides [stacks] raise, the mutating calls leave the state as it
    is.  [stored] is a repository that holds the games of a list and whose
    calls do not raise. *)
Definition bare_kit : PokerKit :=
  {| Hand := list Card;
     StandardHighHand := fun cards => inr cards;
     hand_cards := fun hand => hand;
     str_Card := fun _ => inl "AttributeError: 'str' object has no attribute 'name'";
     State := list Z;
     LoggedAction := unit;
     create_state := fun stacks0 => inr stacks0;
     deal_hole := fun _ _ st => inr st;
     burn_card := fun st => inr st;
     deal_board := fun _ st => inr st;
     fold := fun st => inr st;
     check_or_call := fun st => inr st;
     complete_bet_or_raise_to := fun _ st => inr st;
     show_or_muck_hole_cards := fun st => inr st;
     stacks := fun st => st;
     actor := fun _ => inl "AttributeError: actor";
     min_raise_to := fun _ => inl "AttributeError: min_raise_to";
     is_terminal := fun _ => inl "AttributeError: is_terminal";
     get_hole_cards := fun _ _ => inl "AttributeError: get_hole_cards";
     board_cards := fun _ => inl "AttributeError: board_cards";
     dealer := fun _ => inl "AttributeError: dealer";
     actions := fun _ => inl "AttributeError: actions" |}.

Definition has_id (game_id : string) (game : PokerHand) : bool :=
  match ph_id game with
  | Some i => (i =? game_id)%string
  | None => false
  end.

Definition stored (games : list PokerHand) : Repository :=
  {| get_poker_hand := fun game_id => inr (find (has_id game_id) games);
     create_poker_hand := fun game => inr game |}.

(** * Properties *)

(** ** Hand evaluation *)

Section HandEvaluation.
Context {kit : PokerKit}.

Lemma class_name_without_Hand :
  replace StandardHighHand_class_name "Hand" "" = "StandardHigh".
Proof. reflexivity. Qed.

(** Whatever the cards, a hand that is evaluated is reported as
    "StandardHigh" with rank 1: the name is not a key of [hand_ranks]. *)
Lemma evaluate_hand_constant (self : PokerService) (cards : list string) :
  match evaluate_hand self cards with
  | Ok r => hand_type r = "StandardHigh" /\ hand_rank r = 1
  | Err _ => True
  end.
Proof.
  unfold evaluate_hand.
  destruct (negb (List.length cards <? 5)%nat); [| exact I].
  destruct (convert_cards cards [] []) as [objs | e]; simpl; [| exact I].
  destruct (StandardHighHand objs) as [m | hand]; simpl; [exact I |].
  split; reflexivity.
Qed.

Lemma convert_royal_flush :
  convert_cards royal_flush [] [] = Ok (cards_of royal_flush).
Proof. reflexivity. Qed.

Lemma convert_full_house :
  convert_cards full_house [] [] = Ok (cards_of full_house).
Proof. reflexivity. Qed.

(** The specification's ranking on its own examples: the wheel is a
    straight that ranks below the six-high straight, and of seven cards the
    best five are chosen. *)
Example wheel_below_six_high :
  let wheel := HandSpec.score (cards_of ["5h"; "4d"; "3c"; "2h"; "Ad"]) in
  let six_high := HandSpec.score (cards_of ["6h"; "5d"; "4c"; "3h"; "2d"]) in
  HandSpec.category wheel = HandSpec.Straight
  /\ HandSpec.category six_high = HandSpec.Straight
  /\ HandSpec.rank_ltb wheel six_high = true
  /\ HandSpec.rank_ltb six_high wheel = false.
Proof. repeat split; reflexivity. Qed.

Example best_of_seven :
  List.length (HandSpec.combinations 5 (cards_of (sample_board ++ ["Ah"; "Kd"]))) = 21%nat
  /\ option_map HandSpec.category
       (HandSpec.best_hand (cards_of (sample_board ++ ["Ah"; "Kd"])))
     = Some HandSpec.Flush.
Proof. split; vm_compute; reflexivity. Qed.

(** C1 (code defect).  The specification wants category RoyalFlush with rank
    10 for ["As","Ks","Qs","Js","Ts"], and that is what the specification's
    ranking gives.  [evaluate_hand] reads the category off the class name of
    the object it has just built with [StandardHighHand(...)]: when the
    constructor raises it fails with "Hand evaluation failed", and otherwise
    it returns hand type "StandardHigh" with rank 1. *)
Theorem evaluate_hand_royal_flush (self : PokerService) :
  option_map HandSpec.category (HandSpec.best_hand (cards_of royal_flush))
    = Some HandSpec.RoyalFlush
  /\ HandSpec.category_rank HandSpec.RoyalFlush = 10
  /\ match evaluate_hand self royal_flush with
     | Ok r => hand_type r = "StandardHigh" /\ hand_rank r = 1
     | Err e => exists m, e = HandEvaluationFailed m
     end.
Proof.
  split; [reflexivity | split; [reflexivity |]].
  unfold evaluate_hand.
  change (negb (List.length royal_flush <? 5)%nat) with true. cbv iota.
  rewrite convert_royal_flush. cbn [bind].
  destruct (StandardHighHand (cards_of royal_flush)) as [m | hand]; cbn [wrapped bind].
  - exists m. reflexivity.
  - split; reflexivity.
Qed.

(** C3 (code defect).  [evaluate_hand] never returns the best hand rank of
    the specification: every successful call yields hand type "StandardHigh"
    and rank 1, which is none of the ten category names; on the full house
    ["2h","2d","2c","3h","3d"] the specification's ranking gives FullHouse
    (rank 7, tie-break [2; 3]). *)
Theorem evaluate_hand_not_best_rank (self : PokerService) (cards : list string) :
  match evaluate_hand self cards with
  | Ok r => hand_type r = "StandardHigh" /\ hand_rank r = 1
            /\ ~ In (hand_type r) (map HandSpec.category_name HandSpec.all_categories)
  | Err _ => True
  end
  /\ option_map (fun h => (HandSpec.category h, HandSpec.tiebreak h))
       (HandSpec.best_hand (cards_of full_house)) = Some (HandSpec.FullHouse, [2; 3])
  /\ match evaluate_hand self full_house with
     | Ok r => hand_rank r <> HandSpec.category_rank HandSpec.FullHouse
     | Err e => exists m, e = HandEvaluationFailed m
     end.
Proof.
  split; [| split; [reflexivity |]].
  - pose proof (evaluate_hand_constant self cards) as H.
    destruct (evaluate_hand self cards) as [r | e]; [| exact I].
    destruct H as [Ht Hr]. repeat split; trivial.
    rewrite Ht. simpl. intros H.
    repeat (destruct H as [H | H]; [discriminate H |]). exact H.
  - unfold evaluate_hand.
    change (negb (List.length full_house <? 5)%nat) with true. cbv iota.
    rewrite convert_full_house. cbn [bind].
    destruct (StandardHighHand (cards_of full_house)) as [m | hand]; cbn [wrapped bind].
    + exists m. reflexivity.
    + cbn. discriminate.
Qed.

End HandEvaluation.

(** ** The action validator *)

#[local] Arguments mem_string : simpl never.
#[local] Arguments bad_player_index : simpl never.
#[local] Arguments bad_amount : simpl never.

Lemma mem_string_In (s : string) (l : list string) :
  mem_string s l = true <-> In s l.
Proof.
  unfold mem_string. rewrite existsb_exists. split.
  - intros [x [Hin Heq]]. apply String.eqb_eq in Heq. now subst.
  - intros Hin. exists s. split; [assumption | apply String.eqb_refl].
Qed.

Lemma mem_string_not_In (s : string) (l : list string) :
  mem_string s l = false <-> ~ In s l.
Proof.
  rewrite <- mem_string_In. destruct (mem_string s l); split; congruence.
Qed.

Lemma bad_player_index_false (n : nat) (v : pyval) :
  bad_player_index v n = false <-> index_below n v.
Proof.
  unfold bad_player_index, index_below. split.
  - destruct (as_int v) as [p |]; [| discriminate].
    intros H. apply orb_false_iff in H. destruct H as [H1 H2].
    exists p. split; [reflexivity |].
    apply Z.ltb_ge in H1. rewrite Z.geb_leb in H2. apply Z.leb_gt in H2. lia.
  - intros [p [Hp Hr]]. rewrite Hp. apply orb_false_iff. split.
    + apply Z.ltb_ge. lia.
    + rewrite Z.geb_leb. apply Z.leb_gt. lia.
Qed.

Lemma index_below_not_none (n : nat) (v : pyval) :
  index_below n v -> is_none v = false.
Proof. intros [p [Hp _]]. destruct v; simpl in *; congruence. Qed.

(** [f <= 0] is false for the floats above zero and for NaN only. *)
Lemma float_not_le_zero (f : spec_float) :
  float_le_zero f = false
  <-> SFltb (S754_zero false) f = true \/ f = S754_nan.
Proof.
  unfold SFltb, float_le_zero, SFleb.
  destruct f as [s | s | | s m e]; simpl; try destruct s; simpl;
    split; try tauto; try discriminate;
    intros [H | H]; discriminate H.
Qed.

Lemma bad_amount_false (v : pyval) :
  bad_amount v = false <-> accepted_amount v.
Proof.
  unfold bad_amount, accepted_amount, number_le_zero.
  destruct v as [| b | z | f | s | l | d]; simpl.
  - split; [discriminate |]. intros [[z [H _]] | [f [H _]]]; discriminate H.
  - split.
    + intros H. left. exists (if b then 1 else 0). split; [reflexivity |].
      apply Z.leb_gt in H. exact H.
    + intros [[z [Hz Hpos]] | [f [H _]]]; [| discriminate H].
      injection Hz as <-. apply Z.leb_gt. exact Hpos.
  - split.
    + intros H. left. exists z. split; [reflexivity |].
      apply Z.leb_gt in H. exact H.
    + intros [[z' [Hz Hpos]] | [f [H _]]]; [| discriminate H].
      injection Hz as <-. apply Z.leb_gt. exact Hpos.
  - rewrite float_not_le_zero. split.
    + intros H. right. exists f. split; [reflexivity | exact H].
    + intros [[z [H _]] | [f' [Hf H]]]; [discriminate H |].
      injection Hf as <-. exact H.
  - split; [discriminate |]. intros [[z [H _]] | [f [H _]]]; discriminate H.
  - split; [discriminate |]. intros [[z [H _]] | [f [H _]]]; discriminate H.
  - split; [discriminate |]. intros [[z [H _]] | [f [H _]]]; discriminate H.
Qed.

Lemma accepted_amount_not_none (v : pyval) :
  accepted_amount v -> is_none v = false.
Proof.
  intros [[z [H _]] | [f [H _]]]; destruct v; simpl in *; congruence.
Qed.

Lemma valid_type_truthy (ty : string) :
  In ty valid_action_types -> truthy (VStr ty) = true.
Proof.
  simpl. intros H.
  repeat (destruct H as [H | H]; [subst ty; reflexivity |]). contradiction.
Qed.

(** The verdict of [validate_action] on a state with all five keys. *)
Lemma validate_action_accepts_iff {K A : Type} (self : PokerService)
    (gs : GameStateDict K A) (l : list Z) (a : Action) :
  has_required_keys gs = true -> gs_stacks gs = Some l ->
  (validate_action self gs a = Ok (true, None) <-> well_shaped (List.length l) a).
Proof.
  intros Hkeys Hst. unfold validate_action, well_shaped, accept, reject.
  rewrite Hkeys, Hst. cbv zeta. split.
  - intros H.
    destruct (truthy (get (a_type a))) eqn:Ht; simpl in H; [| discriminate H].
    destruct (get (a_type a)) as [| b | z | f | ty | vs | d] eqn:Hty;
      simpl in H; try discriminate H.
    destruct (mem_string ty valid_action_types) eqn:Hv; simpl in H; [| discriminate H].
    exists ty. split; [reflexivity |].
    split; [now apply mem_string_In |].
    destruct (mem_string ty player_action_types) eqn:Hp.
    + destruct (is_none (get (a_player a))) eqn:Hn; [discriminate H |].
      destruct (bad_player_index (get (a_player a)) (List.length l)) eqn:Hb;
        [discriminate H |].
      split; [intros _; now apply bad_player_index_false |].
      destruct (mem_string ty sized_action_types) eqn:Hs.
      * destruct (is_none (get (a_amount a))); [discriminate H |].
        destruct (bad_amount (get (a_amount a))) eqn:Ha; [discriminate H |].
        intros _. now apply bad_amount_false.
      * intros Hin. apply mem_string_In in Hin. congruence.
    + split; [intros Hin; apply mem_string_In in Hin; congruence |].
      destruct (mem_string ty sized_action_types) eqn:Hs.
      * destruct (is_none (get (a_amount a))); [discriminate H |].
        destruct (bad_amount (get (a_amount a))) eqn:Ha; [discriminate H |].
        intros _. now apply bad_amount_false.
      * intros Hin. apply mem_string_In in Hin. congruence.
  - intros [ty [Hty [Hv [Hp Hs]]]]. rewrite Hty.
    rewrite (valid_type_truthy ty Hv). simpl.
    apply mem_string_In in Hv. rewrite Hv. simpl.
    destruct (mem_string ty player_action_types) eqn:Hpm.
    + apply mem_string_In in Hpm. specialize (Hp Hpm).
      rewrite (index_below_not_none _ _ Hp).
      apply bad_player_index_false in Hp. rewrite Hp.
      destruct (mem_string ty sized_action_types) eqn:Hsm; [| reflexivity].
      apply mem_string_In in Hsm. specialize (Hs Hsm).
      rewrite (accepted_amount_not_none _ Hs).
      apply bad_amount_false in Hs. rewrite Hs. reflexivity.
    + destruct (mem_string ty sized_action_types) eqn:Hsm; [| reflexivity].
      apply mem_string_In in Hsm. specialize (Hs Hsm).
      rewrite (accepted_amount_not_none _ Hs).
      apply bad_amount_false in Hs. rewrite Hs. reflexivity.
Qed.

(** C10.  A bet or a raise whose amount is a positive float is accepted by
    [validate_action], for any valid player index and any game state that
    has the five required keys. *)
Theorem validate_action_accepts_float_amount {K A : Type} (self : PokerService)
    (gs : GameStateDict K A) (l : list Z) (ty : string) (player : pyval)
    (f : spec_float) :
  has_required_keys gs = true ->
  gs_stacks gs = Some l ->
  ty = "bet" \/ ty = "raise" ->
  index_below (List.length l) player ->
  SFltb (S754_zero false) f = true ->
  validate_action self gs (mk_action ty (Some player) (Some (VFloat f)))
    = Ok (true, None).
Proof.
  intros Hkeys Hst Hty Hp Hf.
  apply (validate_action_accepts_iff self gs l _ Hkeys Hst).
  exists ty. split; [reflexivity |]. split.
  - destruct Hty; subst ty; simpl; tauto.
  - split.
    + intros _. exact Hp.
    + intros _. right. exists f. split; [reflexivity | now left].
Qed.

(** [validate_action] answers [(True, None)] or [(False, message)]. *)
Lemma validate_action_verdict {K A : Type} (self : PokerService)
    (gs : GameStateDict K A) (a : Action) (v : bool) (e : option rejection) :
  validate_action self gs a = Ok (v, e) ->
  (v = true /\ e = None) \/ (v = false /\ exists r, e = Some r).
Proof.
  unfold validate_action, accept, reject.
  destruct (has_required_keys gs); [| discriminate].
  cbv zeta.
  repeat match goal with
         | |- context [if ?c then _ else _] => destruct c
         | |- context [match ?c with Some _ => _ | None => _ end] => destruct c
         end;
    intros H; injection H as <- <-; eauto.
Qed.

(** On a dict with the five keys [validate_action] does not raise. *)
Lemma validate_action_returns {K A : Type} (self : PokerService)
    (gs : GameStateDict K A) (a : Action) :
  has_required_keys gs = true ->
  exists v e, validate_action self gs a = Ok (v, e).
Proof.
  intros Hkeys. unfold validate_action, accept, reject. rewrite Hkeys.
  cbv zeta.
  repeat match goal with
         | |- context [if ?c then _ else _] => destruct c
         | |- context [match ?c with Some _ => _ | None => _ end] => destruct c
         end;
    eexists; eexists; reflexivity.
Qed.

(** The verdict depends on the dict through the number of stacks only. *)
Lemma validate_action_stack_count {K A K' A' : Type} (self : PokerService)
    (gs : GameStateDict K A) (gs' : GameStateDict K' A') (l l' : list Z)
    (a : Action) :
  has_required_keys gs = true -> gs_stacks gs = Some l ->
  has_required_keys gs' = true -> gs_stacks gs' = Some l' ->
  List.length l = List.length l' ->
  validate_action self gs a = validate_action self gs' a.
Proof.
  intros Hk Hs Hk' Hs' Hlen. unfold validate_action.
  rewrite Hk, Hs, Hk', Hs', Hlen. reflexivity.
Qed.

(** ** The betting engine *)

Section Engine.
Context {kit : PokerKit}.

(** The dict of a state, when it can be built, has the five keys, and its
    stacks are those of the state. *)
Lemma state_dict_shape (self : PokerService) (st : State)
    (d : GameStateDict string LoggedAction) :
  _state_to_dict self st = Ok d ->
  has_required_keys d = true /\ gs_stacks d = Some (stacks st).
Proof.
  unfold _state_to_dict. intros H.
  destruct (hole_entries st); cbn [bind] in H; [| discriminate H].
  destruct (board_cards st); cbn [uncaught bind] in H; [discriminate H |].
  destruct (dealer st); cbn [uncaught bind] in H; [discriminate H |].
  destruct (actions st); cbn [uncaught bind] in H; [discriminate H |].
  injection H as <-. split; reflexivity.
Qed.

(** An action that is well shaped for the stacks of the state passes the
    validator, and the loop body goes on to its branch. *)
Lemma apply_action_accepted (self : PokerService) (board : list string)
    (st : State) (n : Z) (a : Action) :
  well_shaped (List.length (stacks st)) a ->
  apply_action self board (st, n) a
  = (_ <- _state_to_dict self st ;; perform board (st, n) a).
Proof.
  intros Hshape. unfold apply_action. cbn [fst].
  destruct (_state_to_dict self st) as [d | e] eqn:Hd; cbn [bind]; [| reflexivity].
  destruct (state_dict_shape self st d Hd) as [Hkeys Hstacks].
  apply (validate_action_accepts_iff self d (stacks st) a Hkeys Hstacks) in Hshape.
  rewrite Hshape. reflexivity.
Qed.

(** An action that is not well shaped is refused with the message of the
    validator, provided the dict of the state can be built. *)
Lemma apply_action_rejected (self : PokerService) (board : list string)
    (st : State) (n : Z) (a : Action) (d : GameStateDict string LoggedAction) :
  _state_to_dict self st = Ok d ->
  ~ well_shaped (List.length (stacks st)) a ->
  exists r, validate_action self d a = Ok (false, Some r)
            /\ apply_action self board (st, n) a = Err (InvalidAction (Some r)).
Proof.
  intros Hd Hshape. unfold apply_action. cbn [fst]. rewrite Hd. cbn [bind].
  destruct (state_dict_shape self st d Hd) as [Hkeys Hstacks].
  destruct (validate_action_returns self d a Hkeys) as [v [e Hv]].
  destruct (validate_action_verdict self d a v e Hv) as [[-> ->] | [-> [r ->]]].
  - exfalso. apply Hshape.
    now apply (validate_action_accepts_iff self d (stacks st) a Hkeys Hstacks).
  - exists r. rewrite Hv. split; reflexivity.
Qed.

(** What the loop body does once it has applied an action: the dict was
    built, the validator accepted, the branch ran. *)
Lemma apply_action_applied (self : PokerService) (board : list string)
    (st : State) (n : Z) (a : Action) (next : State * Z) :
  apply_action self board (st, n) a = Ok next ->
  exists d, _state_to_dict self st = Ok d
            /\ validate_action self d a = Ok (true, None)
            /\ well_shaped (List.length (stacks st)) a
            /\ perform board (st, n) a = Ok next.
Proof.
  unfold apply_action. cbn [fst]. intros H.
  destruct (_state_to_dict self st) as [d | e] eqn:Hd; cbn [bind] in H;
    [| discriminate H].
  destruct (state_dict_shape self st d Hd) as [Hkeys Hstacks].
  destruct (validate_action self d a) as [[v r] | e] eqn:Hv; cbn [bind] in H;
    [| discriminate H].
  destruct (validate_action_verdict self d a v r Hv) as [[-> ->] | [-> _]];
    [| discriminate H].
  exists d. split; [reflexivity |]. split; [exact Hv |]. split; [| exact H].
  now apply (validate_action_accepts_iff self d (stacks st) a Hkeys Hstacks).
Qed.

(** C4, as the code has it.  [validate_action] checks the shape of an
    action only.  On a game state that has the five keys it accepts exactly
    the well-shaped actions: a known type name, an integer player index
    within the stacks for the six player actions, and for a bet or a raise
    an amount for which [amount <= 0] is false (a number above zero, or
    NaN).  Its verdict depends on the game state through the number of
    stacks only.  In the loop of [evaluate_poker_game] an action that is
    applied was accepted on the dict of the current state, and an action
    that the validator rejects on that dict is not applied: the loop raises
    "Invalid action" with the validator's message. *)
Theorem validate_action_checks_shape_only (self : PokerService) (a : Action) :
  (forall (K A : Type) (gs : GameStateDict K A) (l : list Z),
      has_required_keys gs = true -> gs_stacks gs = Some l ->
      (validate_action self gs a = Ok (true, None)
       <-> well_shaped (List.length l) a))
  /\ (forall (K A K' A' : Type) (gs : GameStateDict K A)
             (gs' : GameStateDict K' A') (l l' : list Z),
         has_required_keys gs = true -> gs_stacks gs = Some l ->
         has_required_keys gs' = true -> gs_stacks gs' = Some l' ->
         List.length l = List.length l' ->
         validate_action self gs a = validate_action self gs' a)
  /\ (forall board st n next,
         apply_action self board (st, n) a = Ok next ->
         exists d, _state_to_dict self st = Ok d
                   /\ validate_action self d a = Ok (true, None))
  /\ (forall board st n d r,
         _state_to_dict self st = Ok d ->
         validate_action self d a = Ok (false, r) ->
         apply_action self board (st, n) a = Err (InvalidAction r)).
Proof.
  split; [| split; [| split]].
  - intros K A gs l Hkeys Hst. now apply validate_action_accepts_iff.
  - intros K A K' A' gs gs' l l'. apply validate_action_stack_count.
  - intros board st n next H.
    destruct (apply_action_applied self board st n a next H) as [d [Hd [Hv _]]].
    exists d. now split.
  - intros board st n d r Hd Hv. unfold apply_action. cbn [fst].
    rewrite Hd. cbn [bind]. rewrite Hv. reflexivity.
Qed.

(** C5, as the code has it.  A bet with a valid player index and an
    accepted amount passes [validate_action] whatever the stacks hold, and
    the endpoint appends it to the stored game when the two repository
    calls succeed.  The service never caps the amount: once the dict of the
    state is built, the loop body hands the amount unchanged to
    [complete_bet_or_raise_to]; only "allin" passes another amount, the
    stack of the player that [state.actor] names. *)
Theorem bet_amount_forwarded_unchanged (self : PokerService)
    (board : list string) (st : State) (n : Z) (player amount : pyval) :
  index_below (List.length (stacks st)) player ->
  accepted_amount amount ->
  (forall (K A : Type) (gs : GameStateDict K A) (l : list Z),
      has_required_keys gs = true -> gs_stacks gs = Some l ->
      List.length l = List.length (stacks st) ->
      validate_action self gs (mk_action "bet" (Some player) (Some amount))
      = Ok (true, None))
  /\ apply_action self board (st, n) (mk_action "bet" (Some player) (Some amount))
     = (_ <- _state_to_dict self st ;;
        st' <- uncaught (complete_bet_or_raise_to amount st) ;;
        Ok (st', n))
  /\ apply_action self board (st, n) (mk_action "allin" (Some player) None)
     = (_ <- _state_to_dict self st ;;
        current_player <- uncaught (actor st) ;;
        match current_player with
        | Some i =>
            stack <- match nth_error (stacks st) i with
                     | Some z => Ok z | None => Err IndexError end ;;
            st' <- uncaught (complete_bet_or_raise_to (VInt stack) st) ;;
            Ok (st', n)
        | None => Ok (st, n)
        end)
  /\ (forall (repository : Repository) game_id game saved,
         get_poker_hand game_id = inr (Some game) ->
         List.length (ph_stacks game) = List.length (stacks st) ->
         create_poker_hand
           (record_action game (mk_action "bet" (Some player) (Some amount)))
         = inr saved ->
         add_action self game_id (mk_action "bet" (Some player) (Some amount))
         = Ok saved).
Proof.
  intros Hp Ha.
  assert (Hshape : forall k, k = List.length (stacks st) ->
             well_shaped k (mk_action "bet" (Some player) (Some amount))).
  { intros k ->. exists "bet". split; [reflexivity |]. split; [simpl; tauto |].
    split; intros _; assumption. }
  assert (Hbet : forall (K A : Type) (gs : GameStateDict K A) (l : list Z),
             has_required_keys gs = true -> gs_stacks gs = Some l ->
             List.length l = List.length (stacks st) ->
             validate_action self gs (mk_action "bet" (Some player) (Some amount))
             = Ok (true, None)).
  { intros K A gs l Hkeys Hst Hlen.
    apply (validate_action_accepts_iff self gs l _ Hkeys Hst).
    now apply Hshape. }
  split; [exact Hbet |]. split; [| split].
  - rewrite apply_action_accepted by now apply Hshape. reflexivity.
  - rewrite apply_action_accepted; [reflexivity |].
    exists "allin". split; [reflexivity |]. split; [simpl; tauto |].
    split; [intros _; exact Hp |].
    simpl. intros [H | [H | []]]; discriminate H.
  - intros repository game_id game saved Hget Hlen Hsave. unfold add_action.
    rewrite Hget.
    rewrite (Hbet _ _ (game_dict game) (ph_stacks game) eq_refl eq_refl Hlen).
    cbn [negb]. rewrite Hsave. reflexivity.
Qed.

(** Both sides run the same argument checks. *)
Ltac same_checks :=
  repeat match goal with
         | |- (if ?c then _ else _) = (if ?c then _ else _) =>
             destruct c; [| reflexivity]
         end.

Lemma process_actions_swap (self : PokerService) (board : list string)
    (a1 a2 : Action) :
  (forall loop, apply_action self board loop a1 = apply_action self board loop a2) ->
  forall pre post loop,
    process_actions self board loop (pre ++ a1 :: post)
    = process_actions self board loop (pre ++ a2 :: post).
Proof.
  intros Hstep pre post. induction pre as [| a pre IH]; intros loop; simpl.
  - now rewrite Hstep.
  - destruct (apply_action self board loop a) as [loop' | e]; simpl;
      [apply IH | reflexivity].
Qed.

(** C9.  "check" and "call" are applied by the same operation,
    [check_or_call].  From any state and whatever the player and amount
    entries, the loop body does the same on a "check" as on the "call".
    For a player index within the stacks the validator accepts the check
    without looking at any bet, and once the dict of the state is built the
    step is the call of [check_or_call] on the state; a check that is
    applied is a [check_or_call] that succeeded, so a check facing a bet is
    carried out by the operation that carries out a call and is not refused
    by the service.  A game evaluates to the same outcome when a "check"
    anywhere in its action list is replaced by the "call". *)
Theorem check_applied_as_call (self : PokerService) (board : list string)
    (player amount : option pyval) :
  (forall loop : State * Z,
      apply_action self board loop (mk_action "check" player amount)
      = apply_action self board loop (mk_action "call" player amount))
  /\ (forall st n p,
         player = Some p -> index_below (List.length (stacks st)) p ->
         apply_action self board (st, n) (mk_action "check" player amount)
         = (_ <- _state_to_dict self st ;;
            st' <- uncaught (check_or_call st) ;;
            Ok (st', n)))
  /\ (forall st n next,
         apply_action self board (st, n) (mk_action "check" player amount) = Ok next ->
         exists st', check_or_call st = inr st' /\ next = (st', n))
  /\ (forall player_cards pre post stacks0 positions,
         evaluate_poker_game self player_cards board
           (pre ++ mk_action "check" player amount :: post) stacks0 positions
         = evaluate_poker_game self player_cards board
             (pre ++ mk_action "call" player amount :: post) stacks0 positions).
Proof.
  assert (Hstep : forall loop : State * Z,
             apply_action self board loop (mk_action "check" player amount)
             = apply_action self board loop (mk_action "call" player amount)).
  { intros [st n]. unfold apply_action. reflexivity. }
  split; [exact Hstep |]. split; [| split].
  - intros st n p -> Hp. rewrite apply_action_accepted; [reflexivity |].
    exists "check". split; [reflexivity |]. split; [simpl; tauto |].
    split; [intros _; exact Hp |].
    simpl. intros [H | [H | []]]; discriminate H.
  - intros st n next H.
    destruct (apply_action_applied self board st n _ next H) as [_ [_ [_ [_ Hdo]]]].
    cbn in Hdo. destruct (check_or_call st) as [m | st']; cbn in Hdo;
      [discriminate Hdo |].
    injection Hdo as <-. now exists st'.
  - intros player_cards pre post stacks0 positions. unfold evaluate_poker_game.
    same_checks.
    destruct (check_hole_cards player_cards); simpl; [| reflexivity].
    same_checks.
    destruct (wrapped FailedCreateState (create_state stacks0)) as [st |];
      simpl; [| reflexivity].
    destruct (deal_hole_cards player_cards board st) as [st0 |]; simpl; [| reflexivity].
    now rewrite (process_actions_swap self board _ _ Hstep pre post).
Qed.

Lemma street_action_well_shaped (ty : string) (k : nat) :
  In ty street_actions -> well_shaped k (mk_action ty None None).
Proof.
  intros Hty. exists ty. split; [reflexivity |].
  simpl in Hty. destruct Hty as [<- | [<- | [<- | []]]];
    (split; [simpl; tauto |]);
    split; simpl; intros H;
    repeat (destruct H as [H | H]; [discriminate H |]); contradiction.
Qed.

(** X3.  The street actions follow the order flop, turn, river.  Once the
    dict of the state is built, a "deal_flop" is refused with "Flop can only
    be dealt once" when a flop has been dealt, a "deal_turn" with "Turn can
    only be dealt after flop" unless exactly the flop has been dealt, a
    "deal_river" with "River can only be dealt after turn" unless the turn
    has; when one of them is applied the count of dealt board cards was 0,
    3 or 4 and becomes 3, 4 or 5. *)
Theorem deals_follow_street_order (self : PokerService) (board : list string)
    (st : State) (n : Z) :
  (n <> 0 -> apply_action self board (st, n) (mk_action "deal_flop" None None)
             = (_ <- _state_to_dict self st ;; Err FlopOnce))
  /\ (n <> 3 -> apply_action self board (st, n) (mk_action "deal_turn" None None)
                = (_ <- _state_to_dict self st ;; Err TurnAfterFlop))
  /\ (n <> 4 -> apply_action self board (st, n) (mk_action "deal_river" None None)
                = (_ <- _state_to_dict self st ;; Err RiverAfterTurn))
  /\ (forall st' k, apply_action self board (st, n) (mk_action "deal_flop" None None)
                     = Ok (st', k) -> n = 0 /\ k = 3)
  /\ (forall st' k, apply_action self board (st, n) (mk_action "deal_turn" None None)
                     = Ok (st', k) -> n = 3 /\ k = 4)
  /\ (forall st' k, apply_action self board (st, n) (mk_action "deal_river" None None)
                     = Ok (st', k) -> n = 4 /\ k = 5).
Proof.
  rewrite !apply_action_accepted
    by (apply street_action_well_shaped; simpl; tauto).
  cbn [perform mk_action a_type get String.eqb Ascii.eqb Bool.eqb].
  split; [| split; [| split; [| split; [| split]]]].
  - intros Hn. apply Z.eqb_neq in Hn. now rewrite Hn.
  - intros Hn. apply Z.eqb_neq in Hn. now rewrite Hn.
  - intros Hn. apply Z.eqb_neq in Hn. now rewrite Hn.
  - intros st' k H.
    destruct (_state_to_dict self st); cbn [bind] in H; [| discriminate H].
    destruct (n =? 0) eqn:Hn; [| discriminate H]. apply Z.eqb_eq in Hn.
    destruct (burn_card st); cbn [bind uncaught] in H; [discriminate H |].
    destruct (join_cards (firstn 3 board)); cbn [bind] in H; [| discriminate H].
    destruct (deal_board _ _); cbn [bind uncaught] in H; [discriminate H |].
    injection H as _ <-. now split.
  - intros st' k H.
    destruct (_state_to_dict self st); cbn [bind] in H; [| discriminate H].
    destruct (n =? 3) eqn:Hn; [| discriminate H]. apply Z.eqb_eq in Hn.
    destruct (burn_card st); cbn [bind uncaught] in H; [discriminate H |].
    destruct (deal_one board 3 _); cbn [bind uncaught] in H; [| discriminate H].
    injection H as _ <-. now split.
  - intros st' k H.
    destruct (_state_to_dict self st); cbn [bind] in H; [| discriminate H].
    destruct (n =? 4) eqn:Hn; [| discriminate H]. apply Z.eqb_eq in Hn.
    destruct (burn_card st); cbn [bind uncaught] in H; [discriminate H |].
    destruct (deal_one board 4 _); cbn [bind uncaught] in H; [| discriminate H].
    injection H as _ <-. now split.
Qed.

End Engine.

(** ** Dealing a new game *)

Lemma token_injective (c d : Card) : token c = token d -> c = d.
Proof.
  destruct c as [r s], d as [r' s']. unfold token. simpl.
  intros H. injection H as -> ->. reflexivity.
Qed.

Lemma NoDup_VALID_RANKS : NoDup VALID_RANKS.
Proof.
  unfold VALID_RANKS. simpl.
  repeat (constructor; [simpl; intros H;
    repeat (destruct H as [H | H]; [discriminate H |]); exact H |]).
  constructor.
Qed.

Lemma NoDup_VALID_SUITS : NoDup VALID_SUITS.
Proof.
  unfold VALID_SUITS. simpl.
  repeat (constructor; [simpl; intros H;
    repeat (destruct H as [H | H]; [discriminate H |]); exact H |]).
  constructor.
Qed.

Lemma deck_of_length (ranks suits : list ascii) :
  List.length (flat_map (fun r => map (fun s => {| rank := r; suit := s |}) suits) ranks)
  = (List.length ranks * List.length suits)%nat.
Proof.
  induction ranks as [| r ranks IH]; simpl; [reflexivity |].
  now rewrite length_app, length_map, IH.
Qed.

Lemma deck_of_In (ranks suits : list ascii) (c : Card) :
  In c (flat_map (fun r => map (fun s => {| rank := r; suit := s |}) suits) ranks)
  -> In (rank c) ranks.
Proof.
  rewrite in_flat_map. intros [r [Hr Hc]].
  apply in_map_iff in Hc. destruct Hc as [s [<- _]]. exact Hr.
Qed.

Lemma deck_of_NoDup (ranks suits : list ascii) :
  NoDup ranks -> NoDup suits ->
  NoDup (flat_map (fun r => map (fun s => {| rank := r; suit := s |}) suits) ranks).
Proof.
  intros Hr Hs. induction Hr as [| r ranks Hnot Hr IH]; simpl; [constructor |].
  apply NoDup_app.
  - apply Finite.Injective_map_NoDup; [| exact Hs].
    intros s s' H. now injection H.
  - exact IH.
  - intros c Hc Hc'. apply in_map_iff in Hc. destruct Hc as [s [<- _]].
    apply deck_of_In in Hc'. simpl in Hc'. contradiction.
Qed.

Section Dealing.
Variable rt : Runtime.
Hypothesis sound : sound_runtime rt.

Lemma standard_deck_length : List.length (_create_standard_deck rt) = 52%nat.
Proof.
  unfold _create_standard_deck. rewrite deck_of_length.
  rewrite (Permutation_length (ranks_visited sound)).
  rewrite (Permutation_length (suits_visited sound)). reflexivity.
Qed.

Lemma standard_deck_NoDup : NoDup (_create_standard_deck rt).
Proof.
  apply deck_of_NoDup.
  - apply (Permutation_NoDup (Permutation_sym (ranks_visited sound))).
    exact NoDup_VALID_RANKS.
  - apply (Permutation_NoDup (Permutation_sym (suits_visited sound))).
    exact NoDup_VALID_SUITS.
Qed.

Lemma shuffled_deck_length :
  List.length (shuffle rt (_create_standard_deck rt)) = 52%nat.
Proof.
  rewrite (Permutation_length (shuffle_permutes sound _)).
  exact standard_deck_length.
Qed.

Lemma shuffled_deck_NoDup : NoDup (shuffle rt (_create_standard_deck rt)).
Proof.
  apply (Permutation_NoDup (Permutation_sym (shuffle_permutes sound _))).
  exact standard_deck_NoDup.
Qed.

End Dealing.

Lemma pop_app (l : list Card) (c : Card) : pop (l ++ [c]) = Ok (c, l).
Proof.
  unfold pop. rewrite rev_app_distr. simpl. now rewrite rev_involutive.
Qed.

(** On a non-empty list [pop] succeeds and takes the last card. *)
Lemma pop_nonempty (l : list Card) :
  (1 <= List.length l)%nat ->
  exists c l', pop l = Ok (c, l') /\ l = (l' ++ [c])%list
               /\ List.length l = S (List.length l').
Proof.
  intros Hlen. destruct (exists_last (l := l)) as [l' [c ->]].
  - intros ->. simpl in Hlen. lia.
  - exists c, l'. split; [apply pop_app |]. split; [reflexivity |].
    rewrite length_app. simpl. lia.
Qed.

(** The dealing loop on a deck that is long enough: it never fails, and the
    cards it hands out are the last cards of the deck, in popping order. *)
Lemma deal_players_deals (players : list nat) :
  forall (deck0 : list Card) (acc : list (string * list string)),
    (2 * List.length players <= List.length deck0)%nat ->
    exists player_cards rest dealt,
      deal_players players deck0 acc = Ok (player_cards, rest)
      /\ deck0 = (rest ++ rev dealt)%list
      /\ List.length dealt = (2 * List.length players)%nat
      /\ flat_map snd player_cards = (flat_map snd acc ++ map token dealt)%list
      /\ map fst player_cards = (map fst acc ++ map str_nat players)%list.
Proof.
  induction players as [| i players IH]; intros deck0 acc Hlen.
  - exists acc, deck0, []. simpl. rewrite !app_nil_r. repeat split; reflexivity.
  - simpl in Hlen. simpl.
    destruct (pop_nonempty deck0) as [c1 [d1 [Hp1 [Hd1 Hl1]]]]; [lia |].
    destruct (pop_nonempty d1) as [c2 [d2 [Hp2 [Hd2 Hl2]]]]; [lia |].
    replace (List.length deck0 <? 2)%nat with false
      by (symmetry; apply Nat.ltb_ge; lia).
    cbn [negb]. rewrite Hp1. cbn [bind]. rewrite Hp2. cbn [bind].
    destruct (IH d2 (acc ++ [(str_nat i, [token c1; token c2])])%list)
      as [pcs [rest [dealt [Hdeal [Hrest [Hlen' [Htok Hkeys]]]]]]]; [lia |].
    exists pcs, rest, (c1 :: c2 :: dealt).
    split; [exact Hdeal |]. split; [| split; [| split]].
    + rewrite Hd1, Hd2, Hrest. simpl. now rewrite <- !app_assoc.
    + simpl. lia.
    + rewrite Htok, flat_map_app. simpl. now rewrite <- app_assoc.
    + rewrite Hkeys, map_app. simpl. now rewrite <- app_assoc.
Qed.

Section NewGame.
Variable rt : Runtime.
Hypothesis sound : sound_runtime rt.

(** What [create_new_game] does on a six-player request: it succeeds, and
    the twenty cards it pops are the last twenty of the shuffled deck. *)
Lemma create_new_game_deals (self : PokerService) (stack_size : Z) :
  0 < stack_size ->
  exists game self' holes b1 f1 f2 f3 b2 t b3 r,
    create_new_game rt self 6 stack_size = Ok (game, self')
    /\ shuffle rt (_create_standard_deck rt)
       = (deck self' ++ rev (holes ++ [b1; f1; f2; f3; b2; t; b3; r]))%list
    /\ List.length holes = 12%nat
    /\ flat_map snd (g_player_cards game) = map token holes
    /\ g_board_cards game = map token [f1; f2; f3; t; r]
    /\ map fst (g_player_cards game) = map str_nat (seq 0 6)
    /\ g_stacks game = repeat stack_size 6.
Proof.
  intros Hpos. unfold create_new_game.
  change (6 =? 6) with true. cbv iota.
  replace (stack_size <=? 0) with false by (symmetry; apply Z.leb_gt; exact Hpos).
  cbn [negb]. cbv zeta.
  rewrite (standard_deck_length rt sound). cbn [Nat.eqb].
  change (Z.to_nat 6) with 6%nat.
  destruct (deal_players_deals (seq 0 6) (shuffle rt (_create_standard_deck rt)) [])
    as [pcs [rest [holes [Hdeal [Hdeck [Hlen [Htok Hkeys]]]]]]].
  { rewrite (shuffled_deck_length rt sound). simpl. lia. }
  rewrite Hdeal. cbn [bind].
  assert (Hrest : List.length rest = 40%nat).
  { pose proof (shuffled_deck_length rt sound) as H. rewrite Hdeck in H.
    rewrite length_app, length_rev, Hlen in H. simpl in H. lia. }
  replace (List.length rest <? 8)%nat with false
    by (symmetry; apply Nat.ltb_ge; lia).
  cbn [negb].
  destruct (pop_nonempty rest) as [b1 [d1 [Hp1 [Hd1 Hl1]]]]; [lia |].
  destruct (pop_nonempty d1) as [f1 [d2 [Hp2 [Hd2 Hl2]]]]; [lia |].
  destruct (pop_nonempty d2) as [f2 [d3 [Hp3 [Hd3 Hl3]]]]; [lia |].
  destruct (pop_nonempty d3) as [f3 [d4 [Hp4 [Hd4 Hl4]]]]; [lia |].
  destruct (pop_nonempty d4) as [b2 [d5 [Hp5 [Hd5 Hl5]]]]; [lia |].
  destruct (pop_nonempty d5) as [t [d6 [Hp6 [Hd6 Hl6]]]]; [lia |].
  destruct (pop_nonempty d6) as [b3 [d7 [Hp7 [Hd7 Hl7]]]]; [lia |].
  destruct (pop_nonempty d7) as [r [d8 [Hp8 [Hd8 Hl8]]]]; [lia |].
  rewrite Hp1; cbn [bind]. rewrite Hp2; cbn [bind]. rewrite Hp3; cbn [bind].
  rewrite Hp4; cbn [bind]. rewrite Hp5; cbn [bind]. rewrite Hp6; cbn [bind].
  rewrite Hp7; cbn [bind]. rewrite Hp8; cbn [bind].
  eexists _, _, holes, b1, f1, f2, f3, b2, t, b3, r.
  split; [reflexivity |]. cbn [deck g_player_cards g_board_cards g_stacks].
  split; [| split; [exact Hlen | split; [exact Htok |
    split; [reflexivity | split; [exact Hkeys | reflexivity]]]]].
  rewrite Hdeck, Hd1, Hd2, Hd3, Hd4, Hd5, Hd6, Hd7, Hd8.
  rewrite rev_app_distr. simpl. now rewrite <- !app_assoc.
Qed.

(** C6.  The freshly built deck holds 52 cards and a six-player deal takes
    twenty of them, so the deck never runs out: the only errors
    [create_new_game] can raise are the two argument checks (neither "Not
    enough cards in deck to deal" nor "Not enough cards in deck for board",
    nor a pop from an empty list), and a six-player request with a positive
    stack size returns a game and leaves 52 - 20 = 32 cards in the deck of
    the service. *)
Theorem create_new_game_never_exhausts_deck (self : PokerService)
    (num_players stack_size : Z) :
  List.length (_create_standard_deck rt) = 52%nat
  /\ (forall e, create_new_game rt self num_players stack_size = Err e ->
                e = OnlySixPlayerGames \/ e = StackSizePositive)
  /\ (num_players = 6 -> 0 < stack_size ->
      exists game self',
        create_new_game rt self num_players stack_size = Ok (game, self')
        /\ List.length (deck self') = 32%nat).
Proof.
  split; [exact (standard_deck_length rt sound) |].
  assert (Hok : num_players = 6 -> 0 < stack_size ->
                exists game self',
                  create_new_game rt self num_players stack_size = Ok (game, self')
                  /\ List.length (deck self') = 32%nat).
  { intros -> Hpos.
    destruct (create_new_game_deals self stack_size Hpos)
      as [game [self' [holes [b1 [f1 [f2 [f3 [b2 [t [b3 [r H]]]]]]]]]]].
    destruct H as [Hgame [Hdeck [Hlen _]]].
    exists game, self'. split; [exact Hgame |].
    pose proof (shuffled_deck_length rt sound) as H52. rewrite Hdeck in H52.
    rewrite length_app, length_rev, length_app, Hlen in H52. simpl in H52. lia. }
  split; [| exact Hok].
  intros e He.
  destruct (num_players =? 6) eqn:Hn.
  - apply Z.eqb_eq in Hn.
    destruct (stack_size <=? 0) eqn:Hs.
    + right. unfold create_new_game in He. subst num_players.
      change (6 =? 6) with true in He. cbv iota in He. rewrite Hs in He.
      cbn [negb] in He. now injection He.
    + apply Z.leb_gt in Hs. destruct (Hok Hn Hs) as [game [self' [Hgame _]]].
      rewrite Hgame in He. discriminate He.
  - left. unfold create_new_game in He. rewrite Hn in He. now injection He.
Qed.

(** X1.  The cards of a new game are pairwise distinct: a six-player request
    with a positive stack size returns a game for the players "0" to "5"
    whose twelve hole-card tokens followed by its five board tokens have no
    repetition. *)
Theorem create_new_game_cards_distinct (self : PokerService) (stack_size : Z) :
  0 < stack_size ->
  exists game self',
    create_new_game rt self 6 stack_size = Ok (game, self')
    /\ map fst (g_player_cards game) = ["0"; "1"; "2"; "3"; "4"; "5"]
    /\ List.length (flat_map snd (g_player_cards game)) = 12%nat
    /\ List.length (g_board_cards game) = 5%nat
    /\ NoDup (flat_map snd (g_player_cards game) ++ g_board_cards game).
Proof.
  intros Hpos.
  destruct (create_new_game_deals self stack_size Hpos)
    as [game [self' [holes [b1 [f1 [f2 [f3 [b2 [t [b3 [r H]]]]]]]]]]].
  destruct H as [Hgame [Hdeck [Hlen [Htok [Hboard [Hkeys _]]]]]].
  exists game, self'. split; [exact Hgame |]. split; [exact Hkeys |].
  rewrite Htok, Hboard, length_map, Hlen.
  split; [reflexivity | split; [reflexivity |]].
  rewrite <- map_app.
  apply Finite.Injective_map_NoDup; [exact token_injective |].
  pose proof (shuffled_deck_NoDup rt sound) as Hnd. rewrite Hdeck in Hnd.
  apply NoDup_app_remove_l in Hnd. apply NoDup_rev in Hnd.
  rewrite rev_involutive in Hnd.
  change (holes ++ [b1; f1; f2; f3; b2; t; b3; r])%list
    with (holes ++ b1 :: ([f1; f2; f3] ++ b2 :: ([t] ++ b3 :: [r])))%list in Hnd.
  apply NoDup_remove_1 in Hnd.
  rewrite app_assoc in Hnd. apply NoDup_remove_1 in Hnd.
  rewrite app_assoc in Hnd. apply NoDup_remove_1 in Hnd.
  rewrite <- !app_assoc in Hnd. exact Hnd.
Qed.

End NewGame.

(** ** The card codec and the deck *)

Lemma mem_ascii_In (c : ascii) (l : list ascii) :
  mem_ascii c l = true <-> In c l.
Proof.
  unfold mem_ascii. rewrite existsb_exists. split.
  - intros [x [Hin Heq]]. apply Ascii.eqb_eq in Heq. now subst.
  - intros Hin. exists c. split; [assumption | apply Ascii.eqb_refl].
Qed.

Lemma valid_card_standard (s : string) :
  _is_valid_card s = true <->
  exists c, s = token c /\ standard_card c.
Proof.
  unfold _is_valid_card, standard_card, token. split.
  - destruct s as [| r [| u [| x rest]]]; try discriminate.
    intros H. apply andb_true_iff in H. destruct H as [Hr Hu].
    exists {| rank := r; suit := u |}. split; [reflexivity |].
    split; now apply mem_ascii_In.
  - intros [c [-> [Hr Hu]]]. apply andb_true_iff.
    split; now apply mem_ascii_In.
Qed.

Section Deck.
Variable rt : Runtime.
Hypothesis sound : sound_runtime rt.

Lemma standard_deck_In (c : Card) :
  In c (_create_standard_deck rt) <-> standard_card c.
Proof.
  unfold _create_standard_deck, standard_card. rewrite in_flat_map. split.
  - intros [r [Hr Hc]]. apply in_map_iff in Hc. destruct Hc as [u [<- Hu]].
    simpl. split.
    + apply (Permutation_in _ (ranks_visited sound) Hr).
    + apply (Permutation_in _ (suits_visited sound) Hu).
  - intros [Hr Hu]. exists (rank c). split.
    + apply (Permutation_in _ (Permutation_sym (ranks_visited sound)) Hr).
    + apply in_map_iff. exists (suit c). split; [now destruct c |].
      apply (Permutation_in _ (Permutation_sym (suits_visited sound)) Hu).
Qed.

(** X6.  Whatever the order in which the rank and suit sets are visited,
    [__init__] never raises: the deck it builds has 52 cards without
    repetition, a card is in it exactly when its rank and suit are valid,
    and the tokens of its cards are exactly the strings [_is_valid_card]
    accepts. *)
Theorem standard_deck_complete :
  __init__ rt = Ok {| deck := _create_standard_deck rt |}
  /\ List.length (_create_standard_deck rt) = 52%nat
  /\ NoDup (_create_standard_deck rt)
  /\ (forall c, In c (_create_standard_deck rt) <-> standard_card c)
  /\ (forall s, _is_valid_card s = true
                <-> In s (map token (_create_standard_deck rt))).
Proof.
  split; [| split; [| split; [| split]]].
  - unfold __init__. now rewrite (standard_deck_length rt sound).
  - exact (standard_deck_length rt sound).
  - exact (standard_deck_NoDup rt sound).
  - exact standard_deck_In.
  - intros s. rewrite valid_card_standard, in_map_iff. split.
    + intros [c [-> Hc]]. exists c. split; [reflexivity | now apply standard_deck_In].
    + intros [c [<- Hc]]. exists c. split; [reflexivity | now apply standard_deck_In].
Qed.

End Deck.

(** ** Hand evaluation: which inputs are accepted *)

Section HandInputs.
Context {kit : PokerKit}.

Lemma Card_of_valid_token (s : string) :
  _is_valid_card s = true -> Card_of_token s = Ok (hd ace_of_spades (cards_of [s])).
Proof.
  unfold _is_valid_card. destruct s as [| r [| u [| x rest]]]; try discriminate.
  reflexivity.
Qed.

Lemma convert_cards_accepts (cards : list string) :
  forall seen acc,
    Forall (fun s => _is_valid_card s = true) cards ->
    NoDup cards ->
    (forall c, In c cards -> ~ In c seen) ->
    convert_cards cards seen acc = Ok (acc ++ cards_of cards)%list.
Proof.
  induction cards as [| s cards IH]; intros seen acc Hvalid Hnd Hseen; simpl.
  - now rewrite app_nil_r.
  - inversion Hvalid as [| ? ? Hs Hrest]; subst.
    inversion Hnd as [| ? ? Hnot Hnd']; subst.
    rewrite Hs.
    assert (Hm : mem_string s seen = false).
    { apply mem_string_not_In. apply Hseen. now left. }
    rewrite Hm. cbn [negb]. rewrite (Card_of_valid_token s Hs). cbn [bind].
    rewrite IH; trivial.
    + rewrite <- app_assoc. reflexivity.
    + intros c Hc [Heq | Hin]; [subst; contradiction |].
      apply (Hseen c); [now right | exact Hin].
Qed.

Lemma convert_cards_accepted (cards : list string) :
  forall seen acc objs,
    convert_cards cards seen acc = Ok objs ->
    Forall (fun s => _is_valid_card s = true) cards
    /\ NoDup cards
    /\ (forall c, In c cards -> ~ In c seen).
Proof.
  induction cards as [| s cards IH]; intros seen acc objs H; simpl in H.
  - repeat split; [constructor | constructor | intros c []].
  - destruct (_is_valid_card s) eqn:Hs; [| discriminate H].
    destruct (mem_string s seen) eqn:Hm; [discriminate H |]. cbn [negb] in H.
    destruct (Card_of_token s) as [c |]; cbn [bind] in H; [| discriminate H].
    destruct (IH _ _ _ H) as [Hvalid [Hnd Hseen]].
    apply mem_string_not_In in Hm.
    split; [now constructor | split].
    + constructor; [| exact Hnd]. intros Hin. apply (Hseen s Hin). now left.
    + intros d [<- | Hd]; [exact Hm |].
      intros Hin. apply (Hseen d Hd). now right.
Qed.

Lemma convert_cards_stops (pre : list string) :
  forall c post seen acc,
    Forall (fun s => _is_valid_card s = true) pre ->
    NoDup pre ->
    (forall d, In d pre -> ~ In d seen) ->
    (_is_valid_card c = false ->
     convert_cards (pre ++ c :: post) seen acc = Err (InvalidCardFormat c))
    /\ (_is_valid_card c = true -> In c pre \/ In c seen ->
        convert_cards (pre ++ c :: post) seen acc = Err (DuplicateCard c)).
Proof.
  induction pre as [| s pre IH]; intros c post seen acc Hvalid Hnd Hseen; simpl.
  - split.
    + intros Hc. now rewrite Hc.
    + intros Hc [[] | Hin]. rewrite Hc.
      apply mem_string_In in Hin. now rewrite Hin.
  - inversion Hvalid as [| ? ? Hs Hrest]; subst.
    inversion Hnd as [| ? ? Hnot Hnd']; subst.
    rewrite Hs.
    assert (Hm : mem_string s seen = false).
    { apply mem_string_not_In. apply Hseen. now left. }
    rewrite Hm. cbn [negb]. rewrite (Card_of_valid_token s Hs). cbn [bind].
    destruct (IH c post (s :: seen) (acc ++ [hd ace_of_spades (cards_of [s])])%list
                Hrest Hnd') as [Hinv Hdup].
    { intros d Hd [Heq | Hin]; [subst; contradiction |].
      apply (Hseen d); [now right | exact Hin]. }
    split; [exact Hinv |].
    intros Hc [[Heq | Hin] | Hin]; apply (Hdup Hc).
    + right. now left.
    + now left.
    + right. now right.
Qed.

(** X7.  [evaluate_hand] on a list of tokens: fewer than five tokens are
    refused before any token is looked at; five or more well-formed,
    pairwise distinct tokens (there is no upper bound) are handed to
    pokerkit's constructor in input order and the call succeeds exactly
    when the constructor does; a call that succeeds had such an input; and
    the first token that is malformed, or repeats an earlier one, is the
    one named in the error. *)
Theorem evaluate_hand_outcome (self : PokerService) (cards : list string) :
  ((List.length cards < 5)%nat -> evaluate_hand self cards = Err AtLeastFiveCards)
  /\ ((5 <= List.length cards)%nat ->
      Forall (fun s => _is_valid_card s = true) cards -> NoDup cards ->
      evaluate_hand self cards
      = match StandardHighHand (cards_of cards) with
        | inl e => Err (HandEvaluationFailed e)
        | inr hand => Ok (hand_result hand)
        end)
  /\ (forall r, evaluate_hand self cards = Ok r ->
        (5 <= List.length cards)%nat
        /\ Forall (fun s => _is_valid_card s = true) cards
        /\ NoDup cards
        /\ exists hand, StandardHighHand (cards_of cards) = inr hand
                        /\ r = hand_result hand)
  /\ (forall pre c post,
        cards = (pre ++ c :: post)%list -> (5 <= List.length cards)%nat ->
        Forall (fun s => _is_valid_card s = true) pre -> NoDup pre ->
        (_is_valid_card c = false ->
         evaluate_hand self cards = Err (InvalidCardFormat c))
        /\ (_is_valid_card c = true -> In c pre ->
            evaluate_hand self cards = Err (DuplicateCard c))).
Proof.
  unfold evaluate_hand.
  split; [| split; [| split]].
  - intros Hlen. apply Nat.ltb_lt in Hlen. now rewrite Hlen.
  - intros Hlen Hvalid Hnd. apply Nat.ltb_ge in Hlen. rewrite Hlen. cbn [negb].
    rewrite (convert_cards_accepts cards [] [] Hvalid Hnd) by (intros c _ []).
    cbn [bind app].
    destruct (StandardHighHand (cards_of cards)); reflexivity.
  - intros r H.
    destruct (List.length cards <? 5)%nat eqn:Hlen; [discriminate H |].
    apply Nat.ltb_ge in Hlen. cbn [negb] in H.
    destruct (convert_cards cards [] []) as [objs |] eqn:Hconv;
      cbn [bind] in H; [| discriminate H].
    destruct (convert_cards_accepted cards [] [] objs Hconv) as [Hvalid [Hnd _]].
    rewrite (convert_cards_accepts cards [] [] Hvalid Hnd) in Hconv
      by (intros c _ []).
    injection Hconv as <-. cbn [app] in H.
    destruct (StandardHighHand (cards_of cards)) as [e | hand];
      cbn [wrapped bind] in H; [discriminate H |].
    injection H as <-. repeat split; trivial. now exists hand.
  - intros pre c post -> Hlen Hvalid Hnd.
    apply Nat.ltb_ge in Hlen. rewrite Hlen. cbn [negb].
    destruct (convert_cards_stops pre c post [] [] Hvalid Hnd) as [Hinv Hdup].
    { intros d _ []. }
    split.
    + intros Hc. now rewrite (Hinv Hc).
    + intros Hc Hin. now rewrite (Hdup Hc (or_introl Hin)).
Qed.

End HandInputs.

(** ** The order of dealing *)

Lemma seat_entries_app (players : list nat) :
  forall dealt extra,
    List.length dealt = (2 * List.length players)%nat ->
    seat_entries players (dealt ++ extra) = seat_entries players dealt.
Proof.
  induction players as [| i players IH]; intros dealt extra Hlen.
  - destruct dealt; [| discriminate Hlen]. now destruct extra as [| ? [| ? ?]].
  - destruct dealt as [| c1 [| c2 dealt]]; try (simpl in Hlen; lia).
    simpl. rewrite IH; [reflexivity | simpl in Hlen; lia].
Qed.

Lemma deal_players_in_order (players : list nat) :
  forall (deck0 : list Card) (acc : list (string * list string)),
    (2 * List.length players <= List.length deck0)%nat ->
    exists rest dealt,
      deal_players players deck0 acc
        = Ok ((acc ++ seat_entries players dealt)%list, rest)
      /\ deck0 = (rest ++ rev dealt)%list
      /\ List.length dealt = (2 * List.length players)%nat.
Proof.
  induction players as [| i players IH]; intros deck0 acc Hlen.
  - exists deck0, []. simpl. rewrite !app_nil_r. repeat split; reflexivity.
  - simpl in Hlen. simpl.
    destruct (pop_nonempty deck0) as [c1 [d1 [Hp1 [Hd1 Hl1]]]]; [lia |].
    destruct (pop_nonempty d1) as [c2 [d2 [Hp2 [Hd2 Hl2]]]]; [lia |].
    replace (List.length deck0 <? 2)%nat with false
      by (symmetry; apply Nat.ltb_ge; lia).
    cbn [negb]. rewrite Hp1. cbn [bind]. rewrite Hp2. cbn [bind].
    destruct (IH d2 (acc ++ [(str_nat i, [token c1; token c2])])%list)
      as [rest [dealt [Hdeal [Hrest Hlen']]]]; [lia |].
    exists rest, (c1 :: c2 :: dealt).
    split; [| split].
    + rewrite Hdeal. simpl. now rewrite <- app_assoc.
    + rewrite Hd1, Hd2, Hrest. simpl. now rewrite <- !app_assoc.
    + simpl. lia.
Qed.

Section DealingOrder.
Variable rt : Runtime.
Hypothesis sound : sound_runtime rt.

(** A six-player request with a positive stack size. *)
Lemma create_new_game_six (self : PokerService) (stack_size : Z) :
  0 < stack_size ->
  let shuffled := shuffle rt (_create_standard_deck rt) in
  create_new_game rt self 6 stack_size
  = Ok (dealt_game rt stack_size (rev (skipn 32 shuffled)),
        {| deck := firstn 32 shuffled |}).
Proof.
  intros Hpos shuffled. unfold create_new_game.
  change (6 =? 6) with true. cbv iota.
  replace (stack_size <=? 0) with false by (symmetry; apply Z.leb_gt; exact Hpos).
  cbn [negb]. cbv zeta.
  rewrite (standard_deck_length rt sound). cbn [Nat.eqb].
  change (Z.to_nat 6) with 6%nat. fold shuffled.
  assert (H52 : List.length shuffled = 52%nat)
    by exact (shuffled_deck_length rt sound).
  destruct (deal_players_in_order (seq 0 6) shuffled [])
    as [rest [holes [Hdeal [Hdeck Hlen]]]].
  { rewrite H52. simpl. lia. }
  rewrite Hdeal. cbn [bind app].
  assert (Hrest : List.length rest = 40%nat).
  { rewrite Hdeck in H52. rewrite length_app, length_rev, Hlen in H52.
    simpl in H52. lia. }
  replace (List.length rest <? 8)%nat with false
    by (symmetry; apply Nat.ltb_ge; lia).
  cbn [negb].
  destruct (pop_nonempty rest) as [b1 [d1 [Hp1 [Hd1 Hl1]]]]; [lia |].
  destruct (pop_nonempty d1) as [f1 [d2 [Hp2 [Hd2 Hl2]]]]; [lia |].
  destruct (pop_nonempty d2) as [f2 [d3 [Hp3 [Hd3 Hl3]]]]; [lia |].
  destruct (pop_nonempty d3) as [f3 [d4 [Hp4 [Hd4 Hl4]]]]; [lia |].
  destruct (pop_nonempty d4) as [b2 [d5 [Hp5 [Hd5 Hl5]]]]; [lia |].
  destruct (pop_nonempty d5) as [t [d6 [Hp6 [Hd6 Hl6]]]]; [lia |].
  destruct (pop_nonempty d6) as [b3 [d7 [Hp7 [Hd7 Hl7]]]]; [lia |].
  destruct (pop_nonempty d7) as [r [d8 [Hp8 [Hd8 Hl8]]]]; [lia |].
  rewrite Hp1; cbn [bind]. rewrite Hp2; cbn [bind]. rewrite Hp3; cbn [bind].
  rewrite Hp4; cbn [bind]. rewrite Hp5; cbn [bind]. rewrite Hp6; cbn [bind].
  rewrite Hp7; cbn [bind]. rewrite Hp8; cbn [bind].
  assert (Hshape : shuffled
            = (d8 ++ rev (holes ++ [b1; f1; f2; f3; b2; t; b3; r]))%list).
  { rewrite Hdeck, Hd1, Hd2, Hd3, Hd4, Hd5, Hd6, Hd7, Hd8.
    rewrite rev_app_distr. simpl. now rewrite <- !app_assoc. }
  assert (Hd8len : List.length d8 = 32%nat) by lia.
  assert (Hfirst : firstn 32 shuffled = d8).
  { rewrite Hshape, <- Hd8len. rewrite firstn_app, firstn_all, Nat.sub_diag.
    simpl. now rewrite app_nil_r. }
  assert (Hskip : rev (skipn 32 shuffled)
                  = (holes ++ [b1; f1; f2; f3; b2; t; b3; r])%list).
  { rewrite Hshape, <- Hd8len. rewrite skipn_app, skipn_all, Nat.sub_diag.
    simpl. now rewrite rev_involutive. }
  rewrite Hfirst, Hskip. unfold dealt_game.
  rewrite seat_entries_app by exact Hlen.
  assert (Hnth : forall k, nth (12 + k) (holes ++ [b1; f1; f2; f3; b2; t; b3; r])
                             ace_of_spades
                           = nth k [b1; f1; f2; f3; b2; t; b3; r] ace_of_spades).
  { intros k. rewrite app_nth2 by (simpl in Hlen; lia).
    f_equal. simpl in Hlen. lia. }
  change 19%nat with (12 + 7)%nat. change 17%nat with (12 + 5)%nat.
  change 15%nat with (12 + 3)%nat. change 14%nat with (12 + 2)%nat.
  change 13%nat with (12 + 1)%nat.
  rewrite !Hnth. reflexivity.
Qed.

(** X8.  The outcome of [create_new_game] on every request.  A player count
    other than 6 is refused, then a stack size that is not positive; every
    other request succeeds, so the three deck errors of the function are
    never raised.  The game is a function of the last twenty cards of the
    shuffled deck: read from the end of the deck, cards 1 to 12 are the hole
    cards of the players "0" to "5" (two consecutive cards each), card 13 is
    burnt, cards 14 to 16 are the flop, card 17 is burnt, card 18 is the
    turn, card 19 is burnt and card 20 is the river; the first 32 cards stay
    in the deck of the service, the stacks are six times the stack size, the
    dealer sits at 0 with the blinds at 1 and 2, and no action is recorded. *)
Theorem create_new_game_outcome (self : PokerService) (num_players stack_size : Z) :
  create_new_game rt self num_players stack_size
  = if negb (num_players =? 6) then Err OnlySixPlayerGames
    else if stack_size <=? 0 then Err StackSizePositive
    else Ok (dealt_game rt stack_size
               (rev (skipn 32 (shuffle rt (_create_standard_deck rt)))),
             {| deck := firstn 32 (shuffle rt (_create_standard_deck rt)) |}).
Proof.
  destruct (num_players =? 6) eqn:Hn; cbn [negb].
  - apply Z.eqb_eq in Hn. subst num_players.
    destruct (stack_size <=? 0) eqn:Hs.
    + unfold create_new_game. change (6 =? 6) with true. cbv iota.
      rewrite Hs. reflexivity.
    + apply Z.leb_gt in Hs. exact (create_new_game_six self stack_size Hs).
  - unfold create_new_game. rewrite Hn. reflexivity.
Qed.

(** The twenty cards that a new game pops. *)
Lemma dealt_cards :
  let dealt := rev (skipn 32 (shuffle rt (_create_standard_deck rt))) in
  List.length dealt = 20%nat /\ NoDup dealt /\ Forall standard_card dealt.
Proof.
  intros dealt. subst dealt.
  set (shuffled := shuffle rt (_create_standard_deck rt)).
  split; [| split].
  - rewrite length_rev, length_skipn. unfold shuffled.
    rewrite (shuffled_deck_length rt sound). reflexivity.
  - apply NoDup_rev.
    pose proof (shuffled_deck_NoDup rt sound) as Hnd. fold shuffled in Hnd.
    rewrite <- (firstn_skipn 32 shuffled) in Hnd.
    exact (NoDup_app_remove_l _ _ Hnd).
  - apply Forall_forall. intros c Hc. apply in_rev in Hc.
    apply (standard_deck_In rt sound).
    apply (Permutation_in _ (shuffle_permutes sound _)).
    fold shuffled. rewrite <- (firstn_skipn 32 shuffled).
    apply in_or_app. now right.
Qed.

End DealingOrder.

(** ** Duplicate cards in a submitted game *)

Lemma has_duplicates_NoDup (l : list string) :
  has_duplicates l = false <-> NoDup l.
Proof.
  induction l as [| x l IH]; simpl.
  - split; [constructor | reflexivity].
  - rewrite orb_false_iff, IH, mem_string_not_In. split.
    + intros [Hx Hl]. now constructor.
    + intros H. inversion H; subst. now split.
Qed.

Section Duplicates.
Context {kit : PokerKit}.

Lemma deal_hole_cards_crossing (before : list (Z * list string)) :
  forall (p : Z) (cards : list string) (after : list (Z * list string))
         (c : string) (all_cards : list string) (st : State),
    In c cards -> In c (all_cards ++ flat_map snd before)%list ->
    exists e, deal_hole_cards (before ++ (p, cards) :: after) all_cards st = Err e.
Proof.
  induction before as [| [p0 cards0] before IH];
    intros p cards after c all_cards st Hc Hall; simpl.
  - simpl in Hall. rewrite app_nil_r in Hall.
    assert (Hex : existsb (fun card => mem_string card all_cards) cards = true).
    { apply existsb_exists. exists c. split; [exact Hc | now apply mem_string_In]. }
    rewrite Hex. eexists. reflexivity.
  - destruct (negb (existsb (fun card => mem_string card all_cards) cards0));
      [| eexists; reflexivity].
    destruct (join_cards cards0) as [card_str | e]; cbn [bind];
      [| eexists; reflexivity].
    destruct (deal_hole card_str p0 st) as [e | st']; cbn [wrapped bind];
      [eexists; reflexivity |].
    apply (IH p cards after c); [exact Hc |].
    simpl in Hall. now rewrite <- app_assoc.
Qed.

(** X2.  A game in which a board card is repeated, or in which a hole card of a
    player is on the board or in the hand of a player listed earlier, is
    rejected by [evaluate_poker_game]. *)
Theorem cross_duplicates_rejected (self : PokerService)
    (player_cards : list (Z * list string)) (board : list string)
    (acts : list Action) (stacks0 : list Z) (positions : list (string * Z)) :
  ~ NoDup board \/ crosses player_cards board ->
  exists e, evaluate_poker_game self player_cards board acts stacks0 positions = Err e.
Proof.
  intros H. unfold evaluate_poker_game.
  repeat match goal with
         | |- exists e, (if ?c then _ else Err _) = Err e =>
             match c with
             | negb (has_duplicates board) => fail 1
             | _ => destruct c; [| eexists; reflexivity]
             end
         end.
  destruct (has_duplicates board) eqn:Hdup; cbn [negb]; [eexists; reflexivity |].
  destruct H as [H | H]; [apply has_duplicates_NoDup in Hdup; contradiction |].
  destruct (check_hole_cards player_cards); cbn [bind]; [| eexists; reflexivity].
  repeat match goal with
         | |- exists e, (if ?c then _ else Err _) = Err e =>
             destruct c; [| eexists; reflexivity]
         end.
  destruct (create_state stacks0) as [e | st]; cbn [wrapped bind];
    [eexists; reflexivity |].
  destruct H as [before [p [cards [after [c [-> [Hc Hall]]]]]]].
  destruct (deal_hole_cards_crossing before p cards after c board st Hc Hall)
    as [e He].
  rewrite He. eexists. reflexivity.
Qed.

End Duplicates.

(** ** The failures of a game evaluation *)

Section Failures.
Context {kit : PokerKit}.

(** Names, among the unguarded uses of pokerkit, the one that raised. *)
Ltac blame :=
  unfold raised_by_pokerkit;
  first [ solve [eauto]
        | left; solve [eauto]
        | right; blame ].

Lemma In_firstn {A : Type} (n : nat) (l : list A) (x : A) :
  In x (firstn n l) -> In x l.
Proof.
  intros H. rewrite <- (firstn_skipn n l). apply in_or_app. now left.
Qed.

Lemma forallb_valid (cards : list string) :
  forallb _is_valid_card cards = true
  <-> Forall (fun s => _is_valid_card s = true) cards.
Proof. rewrite forallb_forall, Forall_forall. reflexivity. Qed.

(** On well-formed tokens [join_cards] fails only when [str] of a card
    raises. *)
Lemma join_cards_error (cards : list string) (e : error) :
  Forall (fun s => _is_valid_card s = true) cards ->
  join_cards cards = Err e ->
  exists c m, In (token c) cards /\ str_Card c = inl m /\ e = Uncaught m.
Proof.
  induction 1 as [| card cards Hc _ IH]; simpl; [discriminate |].
  rewrite (Card_of_valid_token card Hc). cbn [bind].
  set (c := hd ace_of_spades (cards_of [card])).
  assert (Htoken : token c = card).
  { unfold _is_valid_card in Hc. subst c.
    destruct card as [| r [| u [| x rest]]]; try discriminate Hc. reflexivity. }
  destruct (str_Card c) as [m | s] eqn:Hs; cbn [uncaught bind].
  - intros H. injection H as <-. exists c, m. repeat split; [now left | exact Hs].
  - destruct (join_cards cards) as [rest | e0]; cbn [bind]; [discriminate |].
    intros H. injection H as <-.
    destruct (IH eq_refl) as [c' [m [Hin [Hs' He]]]].
    exists c', m. repeat split; [now right | exact Hs' | exact He].
Qed.

Lemma check_hole_cards_ok (player_cards : list (Z * list string)) :
  check_hole_cards player_cards = Ok tt <-> Forall two_valid_cards player_cards.
Proof.
  induction player_cards as [| [p cards] rest IH]; simpl.
  - split; [constructor | reflexivity].
  - destruct (List.length cards =? 2)%nat eqn:Hlen.
    + destruct (forallb _is_valid_card cards) eqn:Hvalid.
      * rewrite IH. apply Nat.eqb_eq in Hlen. apply forallb_valid in Hvalid.
        split; [intros H; constructor; [now split | exact H] |].
        intros H. now inversion H.
      * split; [discriminate |]. intros H. inversion H as [| ? ? [_ Hv] _]; subst.
        apply forallb_valid in Hv. simpl in Hv. congruence.
    + split; [discriminate |]. intros H. inversion H as [| ? ? [Hl _] _]; subst.
      apply Nat.eqb_neq in Hlen. simpl in Hl. contradiction.
Qed.

Lemma check_hole_cards_error (player_cards : list (Z * list string)) (e : error) :
  check_hole_cards player_cards = Err e ->
  (exists p, e = TwoHoleCards p) \/ (exists p, e = InvalidHoleCards p).
Proof.
  induction player_cards as [| [p cards] rest IH]; simpl; [discriminate |].
  destruct (List.length cards =? 2)%nat;
    [| intros H; injection H as <-; left; now exists p].
  destruct (forallb _is_valid_card cards);
    [exact IH | intros H; injection H as <-; right; now exists p].
Qed.

(** The dealing loop on checked hole cards fails for a duplicate, because
    [str] of a hole card raises, or because [deal_hole] raises; a duplicate
    error names a player one of whose cards is on the board or with a
    player dealt before. *)
Lemma deal_hole_cards_error (player_cards : list (Z * list string)) :
  forall all_cards st e,
    Forall two_valid_cards player_cards ->
    deal_hole_cards player_cards all_cards st = Err e ->
    (exists p m, e = FailedDeal p m)
    \/ (exists c m, In (token c) (flat_map snd player_cards)
                    /\ str_Card c = inl m /\ e = Uncaught m)
    \/ (exists p before cards after c,
          e = DuplicateCardsForPlayer p
          /\ player_cards = (before ++ (p, cards) :: after)%list
          /\ In c cards
          /\ In c (all_cards ++ flat_map snd before)%list).
Proof.
  induction player_cards as [| [p cards] rest IH]; intros all_cards st e Hvalid H;
    simpl in H; [discriminate H |].
  inversion Hvalid as [| ? ? [_ Hcards] Hrest]; subst. simpl in Hcards.
  destruct (existsb (fun card => mem_string card all_cards) cards) eqn:Hex;
    cbn [negb] in H.
  - injection H as <-. right. right.
    apply existsb_exists in Hex. destruct Hex as [c [Hc Hin]].
    apply mem_string_In in Hin.
    exists p, [], cards, rest, c. simpl. rewrite app_nil_r. now repeat split.
  - destruct (join_cards cards) as [s | e0] eqn:Hs; cbn [bind] in H.
    2:{ injection H as <-. right. left.
        destruct (join_cards_error cards e0 Hcards Hs) as [c [m [Hin [Hm He]]]].
        exists c, m. repeat split; [| exact Hm | exact He].
        simpl. apply in_or_app. now left. }
    destruct (deal_hole s p st) as [m | st1]; cbn [wrapped bind] in H.
    + injection H as <-. left. now exists p, m.
    + destruct (IH _ _ _ Hrest H) as [Hfail | [Hstr | Hdup]]; [now left | |].
      * right. left. destruct Hstr as [c [m [Hin [Hm He]]]].
        exists c, m. repeat split; [| exact Hm | exact He].
        simpl. apply in_or_app. now right.
      * right. right.
        destruct Hdup as [q [before [cards' [after [c [He [Hpc [Hc Hin]]]]]]]].
        exists q, ((p, cards) :: before), cards', after, c.
        split; [exact He |]. split; [now rewrite Hpc |]. split; [exact Hc |].
        simpl. now rewrite <- app_assoc in Hin.
Qed.

Lemma deal_one_error (board : list string) (i : nat) (st : State) (e : error) :
  Forall (fun s => _is_valid_card s = true) board ->
  deal_one board i st = Err e ->
  exists m, e = Uncaught m /\ raised_by_pokerkit m.
Proof.
  intros Hboard H. unfold deal_one in H.
  destruct (i <? List.length board)%nat eqn:Hi; [| discriminate H].
  apply Nat.ltb_lt in Hi.
  destruct (nth_error board i) as [card |] eqn:Hnth.
  - cbn [bind] in H.
    assert (Hc : _is_valid_card card = true).
    { rewrite Forall_forall in Hboard. apply Hboard.
      now apply nth_error_In with i. }
    rewrite (Card_of_valid_token card Hc) in H. cbn [bind] in H.
    destruct (str_Card _) as [m | s] eqn:Hs; cbn [uncaught bind] in H.
    { injection H as <-. exists m. split; [reflexivity | blame]. }
    destruct (deal_board s st) as [m | st1] eqn:Hd; cbn [uncaught] in H;
      [| discriminate H].
    injection H as <-. exists m. split; [reflexivity | blame].
  - apply nth_error_None in Hnth. lia.
Qed.

Lemma hole_entries_of_error (st : State) (players : list nat) (e : error) :
  hole_entries_of st players = Err e ->
  exists m, e = Uncaught m /\ raised_by_pokerkit m.
Proof.
  induction players as [| i players IH]; simpl; [discriminate |].
  destruct (get_hole_cards st i) as [m | cards] eqn:Hi; cbn [uncaught bind].
  - intros H. injection H as <-. exists m. split; [reflexivity | blame].
  - destruct (hole_entries_of st players); cbn [bind]; [discriminate |].
    intros H. injection H as <-. now apply IH.
Qed.

Lemma state_dict_error (self : PokerService) (st : State) (e : error) :
  _state_to_dict self st = Err e ->
  exists m, e = Uncaught m /\ raised_by_pokerkit m.
Proof.
  unfold _state_to_dict, hole_entries. intros H.
  destruct (hole_entries_of st (seq 0 6)) as [entries | e0] eqn:He;
    cbn [bind] in H.
  2:{ injection H as <-. exact (hole_entries_of_error st _ e0 He). }
  destruct (board_cards st) as [m | b] eqn:Hb; cbn [uncaught bind] in H.
  { injection H as <-. exists m. split; [reflexivity | blame]. }
  destruct (dealer st) as [m | dl] eqn:Hdl; cbn [uncaught bind] in H.
  { injection H as <-. exists m. split; [reflexivity | blame]. }
  destruct (actions st) as [m | lg] eqn:Hlg; cbn [uncaught bind] in H;
    [| discriminate H].
  injection H as <-. exists m. split; [reflexivity | blame].
Qed.

(** The branch of an action fails with one of the three street errors,
    with the index error of "allin", or because pokerkit raises. *)
Lemma perform_error (board : list string) (st : State) (n : Z) (a : Action)
    (e : error) :
  Forall (fun s => _is_valid_card s = true) board ->
  perform board (st, n) a = Err e ->
  e = FlopOnce \/ e = TurnAfterFlop \/ e = RiverAfterTurn
  \/ (e = IndexError /\ get (a_type a) = VStr "allin")
  \/ (exists m, e = Uncaught m /\ raised_by_pokerkit m).
Proof.
  intros Hboard H. unfold perform in H.
  destruct (get (a_type a)) as [| b | z | f | ty | vs | d]; try discriminate H.
  assert (Hlib : forall m, raised_by_pokerkit m ->
            Uncaught m = FlopOnce \/ Uncaught m = TurnAfterFlop
            \/ Uncaught m = RiverAfterTurn
            \/ (Uncaught m = IndexError /\ VStr ty = VStr "allin")
            \/ (exists m', Uncaught m = Uncaught m' /\ raised_by_pokerkit m')).
  { intros m Hm. right. right. right. right. now exists m. }
  destruct (ty =? "deal_flop")%string.
  { destruct (n =? 0); [| injection H as <-; tauto].
    destruct (burn_card st) as [m | st1] eqn:E1; cbn [uncaught bind] in H;
      [injection H as <-; apply Hlib; blame |].
    destruct (join_cards (firstn 3 board)) as [s | e0] eqn:Hs; cbn [bind] in H.
    2:{ injection H as <-.
        destruct (join_cards_error (firstn 3 board) e0) as [c [m [_ [Hm ->]]]];
          [| exact Hs | apply Hlib; blame].
        rewrite Forall_forall in *. intros x Hx. apply Hboard.
        now apply (In_firstn 3 board x). }
    destruct (deal_board s st1) as [m | st2] eqn:E2; cbn [uncaught bind] in H;
      [| discriminate H].
    injection H as <-. apply Hlib. blame. }
  destruct (ty =? "deal_turn")%string.
  { destruct (n =? 3); [| injection H as <-; tauto].
    destruct (burn_card st) as [m | st1] eqn:E1; cbn [uncaught bind] in H;
      [injection H as <-; apply Hlib; blame |].
    destruct (deal_one board 3 st1) as [st2 | e'] eqn:Hd; cbn [bind] in H;
      [discriminate H |].
    injection H as <-.
    destruct (deal_one_error board 3 st1 e' Hboard Hd) as [m [-> Hm]].
    now apply Hlib. }
  destruct (ty =? "deal_river")%string.
  { destruct (n =? 4); [| injection H as <-; tauto].
    destruct (burn_card st) as [m | st1] eqn:E1; cbn [uncaught bind] in H;
      [injection H as <-; apply Hlib; blame |].
    destruct (deal_one board 4 st1) as [st2 | e'] eqn:Hd; cbn [bind] in H;
      [discriminate H |].
    injection H as <-.
    destruct (deal_one_error board 4 st1 e' Hboard Hd) as [m [-> Hm]].
    now apply Hlib. }
  destruct (ty =? "fold")%string.
  { destruct (fold st) as [m | st1] eqn:E1; cbn [uncaught bind] in H;
      [| discriminate H].
    injection H as <-. apply Hlib. blame. }
  destruct (ty =? "check")%string.
  { destruct (check_or_call st) as [m | st1] eqn:E1; cbn [uncaught bind] in H;
      [| discriminate H].
    injection H as <-. apply Hlib. blame. }
  destruct (ty =? "call")%string.
  { destruct (check_or_call st) as [m | st1] eqn:E1; cbn [uncaught bind] in H;
      [| discriminate H].
    injection H as <-. apply Hlib. blame. }
  destruct (ty =? "bet")%string.
  { destruct (complete_bet_or_raise_to _ st) as [m | st1] eqn:E1;
      cbn [uncaught bind] in H; [| discriminate H].
    injection H as <-. apply Hlib. blame. }
  destruct (ty =? "raise")%string.
  { destruct (min_raise_to st) as [m | dflt] eqn:E0; cbn [uncaught bind] in H;
      [injection H as <-; apply Hlib; blame |].
    destruct (complete_bet_or_raise_to _ st) as [m | st1] eqn:E1;
      cbn [uncaught bind] in H; [| discriminate H].
    injection H as <-. apply Hlib. blame. }
  destruct (ty =? "allin")%string eqn:Eallin; [| discriminate H].
  apply String.eqb_eq in Eallin. subst ty.
  destruct (actor st) as [m | who] eqn:E0; cbn [uncaught bind] in H;
    [injection H as <-; apply Hlib; blame |].
  destruct who as [i |]; [| discriminate H].
  destruct (nth_error (stacks st) i) as [z |]; cbn [bind] in H.
  - destruct (complete_bet_or_raise_to _ st) as [m | st1] eqn:E1;
      cbn [uncaught bind] in H; [| discriminate H].
    injection H as <-. apply Hlib. blame.
  - injection H as <-. right. right. right. left. now split.
Qed.

Lemma apply_action_error (self : PokerService) (board : list string)
    (st : State) (n : Z) (a : Action) (e : error) :
  Forall (fun s => _is_valid_card s = true) board ->
  apply_action self board (st, n) a = Err e ->
  action_error a e \/ (exists m, e = Uncaught m /\ raised_by_pokerkit m).
Proof.
  intros Hboard H. unfold apply_action in H. cbn [fst] in H.
  destruct (_state_to_dict self st) as [d | e0] eqn:Hd; cbn [bind] in H.
  2:{ injection H as <-. right. exact (state_dict_error self st e0 Hd). }
  destruct (state_dict_shape self st d Hd) as [Hkeys _].
  destruct (validate_action_returns self d a Hkeys) as [v [r Hv]].
  rewrite Hv in H. cbn [bind] in H.
  destruct (validate_action_verdict self d a v r Hv) as [[-> ->] | [-> [r' ->]]].
  - destruct (perform_error board st n a e Hboard H)
      as [-> | [-> | [-> | [[-> Hty] | Hlib]]]]; unfold action_error; tauto.
  - injection H as <-. left. left. now exists r'.
Qed.

Lemma process_actions_error (self : PokerService) (board : list string)
    (acts : list Action) :
  Forall (fun s => _is_valid_card s = true) board ->
  forall st n e,
    process_actions self board (st, n) acts = Err e ->
    (exists a, In a acts /\ action_error a e)
    \/ (exists m, e = Uncaught m /\ raised_by_pokerkit m).
Proof.
  intros Hboard. induction acts as [| a acts IH]; intros st n e H;
    cbn [process_actions] in H; [discriminate H |].
  destruct (apply_action self board (st, n) a) as [[st1 n1] | e1] eqn:Ha;
    cbn [bind] in H.
  - destruct (IH st1 n1 e H) as [[b [Hin Hb]] | Hlib]; [left | now right].
    exists b. split; [now right | exact Hb].
  - injection H as <-.
    destruct (apply_action_error self board st n a e1 Hboard Ha) as [He | Hlib];
      [left | now right].
    exists a. split; [now left | exact He].
Qed.

(** The stages of [evaluate_poker_game], one after the other: when the
    function fails, the stage that failed and what it reported. *)
Lemma evaluate_poker_game_stages (self : PokerService)
    (player_cards : list (Z * list string)) (board : list string)
    (acts : list Action) (stacks0 : list Z) (positions : list (string * Z))
    (e : error) :
  evaluate_poker_game self player_cards board acts stacks0 positions = Err e ->
  (argument_error e
   /\ (forall p, e <> DuplicateCardsForPlayer p)
   /\ (e = DuplicateBoardCards -> ~ NoDup board))
  \/ (Forall (fun s => _is_valid_card s = true) board
      /\ NoDup board
      /\ Forall two_valid_cards player_cards
      /\ ((exists m, e = FailedCreateState m)
          \/ (exists created, deal_hole_cards player_cards board created = Err e)
          \/ (exists a, In a acts /\ action_error a e)
          \/ (exists m, e = Uncaught m /\ raised_by_pokerkit m)
          \/ (exists m, e = ShowdownFailed m))).
Proof.
  unfold evaluate_poker_game, argument_error. intros H.
  destruct (List.length stacks0 =? 6)%nat;
    [| injection H as <-; left; split; [tauto | split; discriminate]].
  destruct (forallb _ stacks0);
    [| injection H as <-; left; split; [tauto | split; discriminate]].
  destruct (List.length player_cards <=? 6)%nat;
    [| injection H as <-; left; split; [tauto | split; discriminate]].
  destruct (List.length board <=? 5)%nat;
    [| injection H as <-; left; split; [tauto | split; discriminate]].
  destruct (forallb _is_valid_card board) eqn:Hboard;
    [| injection H as <-; left; split; [tauto | split; discriminate]].
  apply forallb_valid in Hboard.
  destruct (has_duplicates board) eqn:Hdup; cbn [negb] in H.
  { injection H as <-. left. split; [tauto |]. split; [discriminate |].
    intros _ Hnd. apply has_duplicates_NoDup in Hnd. congruence. }
  apply has_duplicates_NoDup in Hdup.
  destruct (check_hole_cards player_cards) as [[] | e0] eqn:Hholes; cbn [bind] in H.
  2:{ injection H as <-. left.
      destruct (check_hole_cards_error _ _ Hholes) as [[p ->] | [p ->]];
        (split; [| split; discriminate]).
      - right; right; right; right; right; right; left. now exists p.
      - right; right; right; right; right; right; right; left. now exists p. }
  apply check_hole_cards_ok in Hholes.
  destruct (forallb valid_position positions);
    [| injection H as <-; left; split; [tauto | split; discriminate]].
  destruct (forallb valid_position_index positions);
    [| injection H as <-; left; split; [tauto | split; discriminate]].
  right. split; [exact Hboard |]. split; [exact Hdup |]. split; [exact Hholes |].
  destruct (create_state stacks0) as [m | created]; cbn [wrapped bind] in H.
  { injection H as <-. left. now exists m. }
  right.
  destruct (deal_hole_cards player_cards board created) as [recorded | e0] eqn:Hd;
    cbn [bind] in H.
  { right.
    destruct (process_actions self board (recorded, 0) acts) as [[st k] | e0] eqn:Hp;
      cbn [bind] in H.
    2:{ injection H as <-.
        destruct (process_actions_error self board acts Hboard recorded 0 e0 Hp)
          as [Ha | Hlib]; [now left | right; now left]. }
    right.
    destruct (is_terminal st) as [m | terminal] eqn:Ht; cbn [uncaught bind] in H.
    { injection H as <-. left. exists m. split; [reflexivity |].
      unfold raised_by_pokerkit. do 12 right. now exists st. }
    right.
    destruct (negb terminal && (k =? 5)); [| discriminate H].
    destruct (show_or_muck_hole_cards st) as [m | final]; cbn [wrapped bind] in H;
      [| discriminate H].
    injection H as <-. now exists m. }
  injection H as <-. left. now exists created.
Qed.

(** X9.  Every failure of [evaluate_poker_game] is one of: an argument
    check; the creation of the state, a duplicate hole card or a failed
    [deal_hole]; an action that the validator rejects with a message, a
    street dealt out of order, or the stack lookup of an "allin" whose
    acting seat has no stack; the showdown; or an exception of one of the
    uses of pokerkit that sit outside every [try] ([str] of a card, the
    reads of [_state_to_dict], the calls of the action branches,
    [state.is_terminal]), which passes through unwrapped.  The validator's
    "Game state missing required keys" cannot occur, and a rejection
    always carries a message. *)
Theorem evaluate_poker_game_failures (self : PokerService)
    (player_cards : list (Z * list string)) (board : list string)
    (acts : list Action) (stacks0 : list Z) (positions : list (string * Z))
    (e : error) :
  evaluate_poker_game self player_cards board acts stacks0 positions = Err e ->
  argument_error e
  \/ dealing_error e
  \/ (exists a, In a acts /\ action_error a e)
  \/ (exists m, e = ShowdownFailed m)
  \/ (exists m, e = Uncaught m /\ raised_by_pokerkit m).
Proof.
  intros H.
  destruct (evaluate_poker_game_stages _ _ _ _ _ _ _ H)
    as [[Harg _] | [_ [_ [Hholes [Hc | [[created Hd] | [Ha | [Hlib | Hs]]]]]]]];
    try tauto.
  - right. left. now left.
  - destruct (deal_hole_cards_error _ _ _ _ Hholes Hd)
      as [[p [m ->]] | [[c [m [_ [Hm ->]]]] | [p [_ [_ [_ [_ [-> _]]]]]]]].
    + right. left. right. right. now exists p, m.
    + do 4 right. exists m. split; [reflexivity | blame].
    + right. left. right. left. now exists p.
Qed.

(** X10.  The duplicate errors are raised for duplicates only: "Duplicate
    board cards" means that a board card is repeated, and "Duplicate cards
    for player p" that a card of player p is on the board or among the
    cards of a player listed before p. *)
Theorem duplicate_errors_are_sound (self : PokerService)
    (player_cards : list (Z * list string)) (board : list string)
    (acts : list Action) (stacks0 : list Z) (positions : list (string * Z)) :
  (evaluate_poker_game self player_cards board acts stacks0 positions
     = Err DuplicateBoardCards -> ~ NoDup board)
  /\ (forall p,
        evaluate_poker_game self player_cards board acts stacks0 positions
          = Err (DuplicateCardsForPlayer p) ->
        exists before cards after c,
          player_cards = (before ++ (p, cards) :: after)%list
          /\ In c cards
          /\ In c (board ++ flat_map snd before)%list).
Proof.
  split.
  - intros H.
    destruct (evaluate_poker_game_stages _ _ _ _ _ _ _ H)
      as [[_ [_ Hdup]] | [_ [_ [Hholes Hlate]]]]; [now apply Hdup | exfalso].
    destruct Hlate as [[m Hm] | [[created Hd] | [[a [_ Ha]] | [[m [Hm _]] | [m Hm]]]]];
      try discriminate.
    + destruct (deal_hole_cards_error _ _ _ _ Hholes Hd)
        as [[p [m Hp]] | [[c [m [_ [_ Hp]]]] | [p [_ [_ [_ [_ [Hp _]]]]]]]];
        discriminate.
    + unfold action_error in Ha.
      destruct Ha as [[r Hr] | [Hr | [Hr | [Hr | [Hr _]]]]]; discriminate Hr.
  - intros p H.
    destruct (evaluate_poker_game_stages _ _ _ _ _ _ _ H)
      as [[_ [Hno _]] | [_ [_ [Hholes Hlate]]]]; [now elim (Hno p) |].
    destruct Hlate as [[m Hm] | [[created Hd] | [[a [_ Ha]] | [[m [Hm _]] | [m Hm]]]]];
      try discriminate.
    + destruct (deal_hole_cards_error _ _ _ _ Hholes Hd)
        as [[q [m Hq]] | [[c [m [_ [_ Hq]]]] | [q [before [cards [after [c Hq]]]]]]];
        try discriminate.
      destruct Hq as [Hq [Hpc [Hc Hin]]]. injection Hq as ->.
      now exists before, cards, after, c.
    + unfold action_error in Ha.
      destruct Ha as [[r Hr] | [Hr | [Hr | [Hr | [Hr _]]]]]; discriminate Hr.
Qed.

End Failures.

(** ** The cards of a new game *)

Lemma seat_entries_tokens (players : list nat) :
  forall dealt,
    List.length dealt = (2 * List.length players)%nat ->
    flat_map snd (seat_entries players dealt) = map token dealt.
Proof.
  induction players as [| i players IH]; intros dealt Hlen.
  - now destruct dealt.
  - destruct dealt as [| c1 [| c2 dealt]]; try (simpl in Hlen; lia).
    simpl. rewrite IH; [reflexivity | simpl in Hlen; lia].
Qed.

Lemma seat_entries_length (players : list nat) :
  forall dealt,
    List.length dealt = (2 * List.length players)%nat ->
    List.length (seat_entries players dealt) = List.length players.
Proof.
  induction players as [| i players IH]; intros dealt Hlen.
  - now destruct dealt.
  - destruct dealt as [| c1 [| c2 dealt]]; try (simpl in Hlen; lia).
    simpl. rewrite IH; [reflexivity | simpl in Hlen; lia].
Qed.

Lemma standard_card_token (c : Card) :
  standard_card c -> _is_valid_card (token c) = true.
Proof. intros H. apply valid_card_standard. now exists c. Qed.

Lemma seat_entries_valid (players : list nat) :
  forall dealt,
    Forall standard_card dealt ->
    Forall two_valid_cards (seat_entries players dealt).
Proof.
  induction players as [| i players IH]; intros dealt Hstd; [constructor |].
  destruct dealt as [| c1 [| c2 dealt]]; try constructor.
  - inversion Hstd as [| ? ? H1 Hstd1]; subst.
    inversion Hstd1 as [| ? ? H2 Hstd2]; subst.
    split; [reflexivity |]. simpl.
    repeat constructor; now apply standard_card_token.
  - apply IH. inversion Hstd as [| ? ? _ Hstd1]; subst. now inversion Hstd1.
Qed.

Lemma two_valid_cards_snd {K L : Type} (pcs : list (K * list string)) :
  forall pcs' : list (L * list string),
    map snd pcs = map snd pcs' ->
    Forall two_valid_cards pcs' -> Forall two_valid_cards pcs.
Proof.
  induction pcs as [| [k l] pcs IH]; intros [| [k' l'] pcs'] Heq Hall;
    try discriminate Heq; constructor.
  - simpl in Heq. injection Heq as -> _. inversion Hall as [| ? ? H _]; subst.
    exact H.
  - simpl in Heq. injection Heq as _ Heq. inversion Hall; subst.
    now apply (IH pcs').
Qed.

Lemma flat_map_snd {K L : Type} (pcs : list (K * list string))
    (pcs' : list (L * list string)) :
  map snd pcs = map snd pcs' -> flat_map snd pcs = flat_map snd pcs'.
Proof. intros H. now rewrite !flat_map_concat_map, H. Qed.

Lemma NoDup_disjoint {A : Type} (l1 l2 : list A) (x : A) :
  NoDup (l1 ++ l2) -> In x l1 -> In x l2 -> False.
Proof.
  induction l1 as [| a l1 IH]; simpl; intros Hnd H1 H2; [contradiction |].
  inversion Hnd as [| ? ? Hnotin Hnd']; subst.
  destruct H1 as [-> | H1]; [| now apply IH].
  apply Hnotin. apply in_or_app. now right.
Qed.

(** The game built from twenty distinct cards of the deck: six hands of two
    well-formed tokens, five well-formed board tokens, no token twice. *)
Lemma dealt_game_cards (rt : Runtime) (stack_size : Z) (dealt : list Card) :
  List.length dealt = 20%nat -> NoDup dealt -> Forall standard_card dealt ->
  Forall two_valid_cards (g_player_cards (dealt_game rt stack_size dealt))
  /\ List.length (g_player_cards (dealt_game rt stack_size dealt)) = 6%nat
  /\ List.length (flat_map snd (g_player_cards (dealt_game rt stack_size dealt)))
     = 12%nat
  /\ map fst (g_player_cards (dealt_game rt stack_size dealt))
     = map str_nat (seq 0 6)
  /\ List.length (g_board_cards (dealt_game rt stack_size dealt)) = 5%nat
  /\ Forall (fun s => _is_valid_card s = true)
       (g_board_cards (dealt_game rt stack_size dealt))
  /\ NoDup (flat_map snd (g_player_cards (dealt_game rt stack_size dealt))
            ++ g_board_cards (dealt_game rt stack_size dealt)).
Proof.
  intros Hlen Hnd Hstd.
  rewrite <- (firstn_skipn 12 dealt) in Hnd, Hstd.
  assert (Hholes : List.length (firstn 12 dealt) = 12%nat)
    by (rewrite length_firstn, Hlen; reflexivity).
  assert (Hrest : List.length (skipn 12 dealt) = 8%nat)
    by (rewrite length_skipn, Hlen; reflexivity).
  assert (Hnth : forall k, nth (12 + k) dealt ace_of_spades
                           = nth k (skipn 12 dealt) ace_of_spades).
  { intros k. rewrite <- (firstn_skipn 12 dealt) at 1.
    rewrite app_nth2 by lia. f_equal. lia. }
  unfold dealt_game. cbn [g_player_cards g_board_cards].
  change 19%nat with (12 + 7)%nat. change 17%nat with (12 + 5)%nat.
  change 15%nat with (12 + 3)%nat. change 14%nat with (12 + 2)%nat.
  change 13%nat with (12 + 1)%nat.
  rewrite !Hnth.
  assert (Hentries : seat_entries (seq 0 6) dealt
                     = seat_entries (seq 0 6) (firstn 12 dealt)).
  { rewrite <- (firstn_skipn 12 dealt) at 1.
    apply seat_entries_app. rewrite Hholes. reflexivity. }
  rewrite Hentries. clear Hentries.
  remember (firstn 12 dealt) as holes eqn:Eholes. clear Eholes.
  destruct (skipn 12 dealt) as [| b1 [| f1 [| f2 [| f3 [| b2 [| t [| b3 [| r [| ? ?]]]]]]]]];
    try discriminate Hrest.
  cbn [nth].
  apply Forall_app in Hstd. destruct Hstd as [Hstd_holes Hstd_rest].
  split; [now apply seat_entries_valid |].
  split; [now rewrite seat_entries_length by (rewrite Hholes; reflexivity) |].
  rewrite seat_entries_tokens by (rewrite Hholes; reflexivity).
  split; [now rewrite length_map |].
  split.
  { clear - Hholes.
    destruct holes as [| ? [| ? [| ? [| ? [| ? [| ? [| ? [| ? [| ? [| ? [| ? [| ? [| ? ?]]]]]]]]]]]]];
      try discriminate Hholes. reflexivity. }
  split; [reflexivity |].
  split.
  { rewrite Forall_forall in Hstd_rest.
    repeat constructor; apply standard_card_token, Hstd_rest; simpl; tauto. }
  change [token f1; token f2; token f3; token t; token r]
    with (map token [f1; f2; f3; t; r]).
  rewrite <- map_app.
  apply Finite.Injective_map_NoDup; [exact token_injective |].
  change (holes ++ [b1; f1; f2; f3; b2; t; b3; r])%list
    with (holes ++ b1 :: ([f1; f2; f3] ++ b2 :: ([t] ++ b3 :: [r])))%list in Hnd.
  apply NoDup_remove_1 in Hnd.
  rewrite app_assoc in Hnd. apply NoDup_remove_1 in Hnd.
  rewrite app_assoc in Hnd. apply NoDup_remove_1 in Hnd.
  rewrite <- !app_assoc in Hnd. exact Hnd.
Qed.

(** Every game that [create_new_game] returns is such a game. *)
Lemma create_new_game_returns (rt : Runtime) (self self' : PokerService)
    (num_players stack_size : Z) (game : Game) :
  sound_runtime rt ->
  create_new_game rt self num_players stack_size = Ok (game, self') ->
  exists dealt,
    game = dealt_game rt stack_size dealt
    /\ 0 < stack_size
    /\ List.length dealt = 20%nat /\ NoDup dealt /\ Forall standard_card dealt.
Proof.
  intros sound Hgame.
  destruct (num_players =? 6) eqn:Hn;
    [| unfold create_new_game in Hgame; rewrite Hn in Hgame; discriminate Hgame].
  apply Z.eqb_eq in Hn. subst num_players.
  destruct (stack_size <=? 0) eqn:Hs.
  { unfold create_new_game in Hgame. change (6 =? 6) with true in Hgame.
    cbv iota in Hgame. rewrite Hs in Hgame. discriminate Hgame. }
  apply Z.leb_gt in Hs.
  pose proof (create_new_game_six rt sound self stack_size Hs) as Hsix.
  cbv zeta in Hsix.
  destruct (dealt_cards rt sound) as [Hlen [Hnd Hstd]].
  remember (rev (skipn 32 (shuffle rt (_create_standard_deck rt)))) as dealt
    eqn:Hdealt.
  clear Hdealt. rewrite Hsix in Hgame. clear Hsix.
  exists dealt. split; [congruence |]. now repeat split.
Qed.

(** ** What a result takes *)

Section Results.
Context {kit : PokerKit}.




(** The stages of [evaluate_poker_game] when it returns a result. *)
Lemma evaluate_poker_game_success (self : PokerService)
    (player_cards : list (Z * list string)) (board : list string)
    (acts : list Action) (stacks0 : list Z) (positions : list (string * Z))
    (results : list (string * Z)) :
  evaluate_poker_game self player_cards board acts stacks0 positions = Ok results ->
  Forall (fun s => _is_valid_card s = true) board
  /\ NoDup board
  /\ Forall two_valid_cards player_cards
  /\ exists created recorded st k terminal final,
       create_state stacks0 = inr created
       /\ deal_hole_cards player_cards board created = Ok recorded
       /\ process_actions self board (recorded, 0) acts = Ok (st, k)
       /\ is_terminal st = inr terminal
       /\ (if negb terminal && (k =? 5)
           then show_or_muck_hole_cards st = inr final
           else final = st)
       /\ results = net_results 0 (stacks recorded) (stacks final).
Proof.
  unfold evaluate_poker_game. intros H.
  destruct (List.length stacks0 =? 6)%nat; [| discriminate H].
  destruct (forallb _ stacks0); [| discriminate H].
  destruct (List.length player_cards <=? 6)%nat; [| discriminate H].
  destruct (List.length board <=? 5)%nat; [| discriminate H].
  destruct (forallb _is_valid_card board) eqn:Hboard; [| discriminate H].
  apply forallb_valid in Hboard.
  destruct (has_duplicates board) eqn:Hdup; cbn [negb] in H; [discriminate H |].
  apply has_duplicates_NoDup in Hdup.
  destruct (check_hole_cards player_cards) as [[] | e0] eqn:Hholes; cbn [bind] in H;
    [| discriminate H].
  apply check_hole_cards_ok in Hholes.
  destruct (forallb valid_position positions); [| discriminate H].
  destruct (forallb valid_position_index positions); [| discriminate H].
  destruct (create_state stacks0) as [m | created]; cbn [wrapped bind] in H;
    [discriminate H |].
  destruct (deal_hole_cards player_cards board created) as [recorded |] eqn:Hd;
    cbn [bind] in H; [| discriminate H].
  destruct (process_actions self board (recorded, 0) acts) as [[st k] |] eqn:Hp;
    cbn [bind] in H; [| discriminate H].
  destruct (is_terminal st) as [m | terminal] eqn:Ht; cbn [uncaught bind] in H;
    [discriminate H |].
  split; [exact Hboard |]. split; [exact Hdup |]. split; [exact Hholes |].
  exists created, recorded, st, k, terminal.
  destruct (negb terminal && (k =? 5)).
  - destruct (show_or_muck_hole_cards st) as [m | final]; cbn [wrapped bind] in H;
      [discriminate H |].
    injection H as <-. exists final. now repeat split.
  - cbn [bind] in H. injection H as <-. exists st. now repeat split.
Qed.




(** On checked hole cards that are distinct from each other and from the
    board the dealing loop fails only because [str] of a card or
    [deal_hole] raises. *)
Lemma deal_hole_cards_distinct (player_cards : list (Z * list string))
    (board : list string) (st : State) (e : error) :
  Forall two_valid_cards player_cards ->
  NoDup (board ++ flat_map snd player_cards) ->
  deal_hole_cards player_cards board st = Err e ->
  (exists p m, e = FailedDeal p m)
  \/ (exists m, e = Uncaught m /\ raised_by_pokerkit m).
Proof.
  intros Hvalid Hnd H.
  destruct (deal_hole_cards_error _ _ _ _ Hvalid H)
    as [Hfail | [[c [m [_ [Hm ->]]]] | [p [before [cards [after [c [_ [Hpc [Hc Hin]]]]]]]]]].
  - now left.
  - right. exists m. split; [reflexivity |]. left. now exists c.
  - exfalso. subst player_cards. rewrite flat_map_app in Hnd. simpl in Hnd.
    rewrite app_assoc in Hnd.
    apply (NoDup_disjoint _ _ c Hnd Hin). apply in_or_app. now left.
Qed.

(** An input that meets what the argument checks ask for, with pairwise
    distinct cards, fails only in pokerkit or on an action. *)
Lemma checked_input_failures (self : PokerService)
    (player_cards : list (Z * list string)) (board : list string)
    (acts : list Action) (stacks0 : list Z) (positions : list (string * Z))
    (e : error) :
  NoDup (board ++ flat_map snd player_cards) ->
  evaluate_poker_game self player_cards board acts stacks0 positions = Err e ->
  argument_error e
  \/ (exists m, e = FailedCreateState m)
  \/ (exists p m, e = FailedDeal p m)
  \/ (exists a, In a acts /\ action_error a e)
  \/ (exists m, e = ShowdownFailed m)
  \/ (exists m, e = Uncaught m /\ raised_by_pokerkit m).
Proof.
  intros Hnd H.
  destruct (evaluate_poker_game_stages _ _ _ _ _ _ _ H)
    as [[Harg _] | [_ [_ [Hholes [Hc | [[created Hd] | [Ha | [Hlib | Hs]]]]]]]];
    try tauto.
  destruct (deal_hole_cards_distinct _ _ _ _ Hholes Hnd Hd) as [Hf | Hl]; tauto.
Qed.

(** The argument checks pass on six non-negative stacks, at most six
    hands of two well-formed tokens, at most five well-formed board tokens
    without repetition, and valid positions. *)
Lemma argument_checks_pass (self : PokerService)
    (player_cards : list (Z * list string)) (board : list string)
    (acts : list Action) (stacks0 : list Z) (positions : list (string * Z))
    (e : error) :
  List.length stacks0 = 6%nat ->
  Forall (fun stack => 0 <= stack) stacks0 ->
  (List.length player_cards <= 6)%nat ->
  (List.length board <= 5)%nat ->
  Forall (fun s => _is_valid_card s = true) board ->
  NoDup board ->
  Forall two_valid_cards player_cards ->
  forallb valid_position positions = true ->
  forallb valid_position_index positions = true ->
  evaluate_poker_game self player_cards board acts stacks0 positions = Err e ->
  ~ argument_error e.
Proof.
  intros Hsix Hstacks Hplayers Hlen Hboard Hnd Hholes Hkeys Hidx H.
  unfold evaluate_poker_game in H.
  rewrite Hsix in H. cbn [Nat.eqb] in H.
  replace (forallb (fun stack => 0 <=? stack) stacks0) with true in H.
  2:{ symmetry. apply forallb_forall. rewrite Forall_forall in Hstacks.
      intros x Hx. apply Z.leb_le. now apply Hstacks. }
  apply Nat.leb_le in Hplayers. apply Nat.leb_le in Hlen.
  rewrite Hplayers, Hlen in H.
  replace (forallb _is_valid_card board) with true in H
    by (symmetry; now apply forallb_valid).
  replace (has_duplicates board) with false in H
    by (symmetry; now apply has_duplicates_NoDup).
  cbn [negb] in H.
  replace (check_hole_cards player_cards) with (Ok tt) in H
    by (symmetry; now apply check_hole_cards_ok).
  cbn [bind] in H. rewrite Hkeys, Hidx in H.
  assert (Hlate : (exists m, e = FailedCreateState m)
                  \/ (exists created, deal_hole_cards player_cards board created = Err e)
                  \/ (exists a, In a acts /\ action_error a e)
                  \/ (exists m, e = Uncaught m)
                  \/ (exists m, e = ShowdownFailed m)).
  { destruct (create_state stacks0) as [m | created]; cbn [wrapped bind] in H.
    { injection H as <-. left. now exists m. }
    right.
    destruct (deal_hole_cards player_cards board created) as [recorded | e0] eqn:Hd;
      cbn [bind] in H; [| injection H as <-; left; now exists created].
    right.
    destruct (process_actions self board (recorded, 0) acts) as [[st k] | e0] eqn:Hp;
      cbn [bind] in H.
    2:{ injection H as <-.
        destruct (process_actions_error self board acts Hboard recorded 0 e0 Hp)
          as [Ha | [m [-> _]]]; [now left | right; left; now exists m]. }
    right.
    destruct (is_terminal st) as [m | terminal]; cbn [uncaught bind] in H;
      [injection H as <-; left; now exists m |].
    right.
    destruct (negb terminal && (k =? 5)); [| discriminate H].
    destruct (show_or_muck_hole_cards st) as [m | final]; cbn [wrapped bind] in H;
      [| discriminate H].
    injection H as <-. now exists m. }
  unfold argument_error. intros Harg.
  destruct Hlate as [[m ->] | [[created Hd] | [[a [_ Ha]] | [[m ->] | [m ->]]]]].
  - repeat (destruct Harg as [Harg | Harg]; try discriminate Harg;
            try (destruct Harg as [? Harg]; discriminate Harg)).
  - destruct (deal_hole_cards_error _ _ _ _ Hholes Hd)
      as [[p [m ->]] | [[c [m [_ [_ ->]]]] | [p [_ [_ [_ [_ [-> _]]]]]]]];
      repeat (destruct Harg as [Harg | Harg]; try discriminate Harg;
              try (destruct Harg as [? Harg]; discriminate Harg)).
  - unfold action_error in Ha.
    destruct Ha as [[r ->] | [-> | [-> | [-> | [-> _]]]]];
      repeat (destruct Harg as [Harg | Harg]; try discriminate Harg;
              try (destruct Harg as [? Harg]; discriminate Harg)).
  - repeat (destruct Harg as [Harg | Harg]; try discriminate Harg;
            try (destruct Harg as [? Harg]; discriminate Harg)).
  - repeat (destruct Harg as [Harg | Harg]; try discriminate Harg;
            try (destruct Harg as [? Harg]; discriminate Harg)).
Qed.

(** X11.  A game made by [create_new_game] passes every check that
    [evaluate_poker_game] makes itself, whatever actions are added to it and
    whatever keys its hole cards are stored under: its evaluation does not
    fail on the stacks, the board, the hole cards, the positions or a
    duplicate card.  It fails only where pokerkit raises (the creation of the
    state, [deal_hole], the showdown, or one of the uses outside a [try],
    such as [str] of a card) or on one of the actions. *)
Theorem new_game_passes_evaluator_checks (rt : Runtime) (self self' service : PokerService)
    (num_players stack_size : Z) (game : Game)
    (player_cards : list (Z * list string)) (acts : list Action) (e : error) :
  sound_runtime rt ->
  create_new_game rt self num_players stack_size = Ok (game, self') ->
  map snd player_cards = map snd (g_player_cards game) ->
  evaluate_poker_game service player_cards (g_board_cards game) acts
    (g_stacks game) (g_positions game) = Err e ->
  (exists m, e = FailedCreateState m)
  \/ (exists p m, e = FailedDeal p m)
  \/ (exists a, In a acts /\ action_error a e)
  \/ (exists m, e = ShowdownFailed m)
  \/ (exists m, e = Uncaught m /\ raised_by_pokerkit m).
Proof.
  intros sound Hgame Hcards H.
  destruct (create_new_game_returns rt self self' _ _ game sound Hgame)
    as [dealt [-> [Hpos [Hlen [Hnd Hstd]]]]].
  destruct (dealt_game_cards rt stack_size dealt Hlen Hnd Hstd)
    as [Hholes [H6 [_ [_ [H5 [Hboard Hdistinct]]]]]].
  assert (Hall : NoDup (g_board_cards (dealt_game rt stack_size dealt)
                        ++ flat_map snd player_cards)).
  { rewrite (flat_map_snd _ _ Hcards).
    apply (Permutation_NoDup (Permutation_app_comm _ _)). exact Hdistinct. }
  destruct (checked_input_failures _ _ _ _ _ _ _ Hall H) as [Harg | Hlate];
    [exfalso | exact Hlate].
  revert Harg.
  apply (argument_checks_pass service player_cards
           (g_board_cards (dealt_game rt stack_size dealt)) acts
           (g_stacks (dealt_game rt stack_size dealt))
           (g_positions (dealt_game rt stack_size dealt)) e).
  - reflexivity.
  - simpl. repeat constructor; lia.
  - rewrite <- (length_map snd), Hcards, length_map, H6. lia.
  - rewrite H5. lia.
  - exact Hboard.
  - exact (NoDup_app_remove_r _ _ Hall).
  - exact (two_valid_cards_snd _ _ Hcards Hholes).
  - reflexivity.
  - reflexivity.
  - exact H.
Qed.


End Results.

(** ** Inputs that are checked and then ignored *)

Section IgnoredInputs.
Context {kit : PokerKit}.

(** X12.  The positions are checked and never used: any two position
    mappings that pass the two position checks give the same outcome, so the
    result does not depend on who is named dealer, small blind or big
    blind. *)
Theorem positions_only_validated (self : PokerService)
    (player_cards : list (Z * list string)) (board : list string)
    (acts : list Action) (stacks0 : list Z) (positions positions' : list (string * Z)) :
  forallb valid_position positions = true ->
  forallb valid_position_index positions = true ->
  forallb valid_position positions' = true ->
  forallb valid_position_index positions' = true ->
  evaluate_poker_game self player_cards board acts stacks0 positions
  = evaluate_poker_game self player_cards board acts stacks0 positions'.
Proof.
  intros Hk Hi Hk' Hi'. unfold evaluate_poker_game.
  repeat match goal with
         | |- (if ?c then _ else _) = (if ?c then _ else _) =>
             destruct c; [| reflexivity]
         end.
  destruct (check_hole_cards player_cards); cbn [bind]; [| reflexivity].
  rewrite Hk, Hi, Hk', Hi'. reflexivity.
Qed.

(** X13.  The player named in an action is checked and never used: two
    actions that differ only in the player entry, each naming an integer
    index within the stacks, are applied by the same step, which is taken
    for the player pokerkit says is to act. *)
Theorem named_player_is_ignored (self : PokerService) (board : list string)
    (st : State) (n : Z) (ty amount : option pyval) (player player' : pyval) :
  index_below (List.length (stacks st)) player ->
  index_below (List.length (stacks st)) player' ->
  apply_action self board (st, n)
    {| a_type := ty; a_player := Some player; a_amount := amount |}
  = apply_action self board (st, n)
      {| a_type := ty; a_player := Some player'; a_amount := amount |}.
Proof.
  intros Hp Hp'. unfold apply_action. cbn [fst].
  destruct (_state_to_dict self st) as [d | e] eqn:Hd; cbn [bind]; [| reflexivity].
  destruct (state_dict_shape self st d Hd) as [Hkeys Hstacks].
  assert (Hsame : validate_action self d
                    {| a_type := ty; a_player := Some player; a_amount := amount |}
                  = validate_action self d
                      {| a_type := ty; a_player := Some player'; a_amount := amount |}).
  { unfold validate_action. rewrite Hkeys, Hstacks.
    cbv zeta. cbn [a_type a_player a_amount get].
    rewrite (index_below_not_none _ _ Hp), (index_below_not_none _ _ Hp').
    apply bad_player_index_false in Hp. apply bad_player_index_false in Hp'.
    rewrite Hp, Hp'. reflexivity. }
  rewrite Hsame. reflexivity.
Qed.

End IgnoredInputs.

(** ** The streets of a whole game *)

Section Streets.
Context {kit : PokerKit}.

Lemma streets_cons (a : Action) (acts : list Action) :
  streets (a :: acts)
  = if val_in (get (a_type a)) street_actions
    then get (a_type a) :: streets acts else streets acts.
Proof. reflexivity. Qed.

Lemma perform_streets (board : list string) (st st' : State) (n k : Z)
    (a : Action) :
  street_counter n ->
  perform board (st, n) a = Ok (st', k) ->
  street_counter k /\ dealt_streets k = (dealt_streets n ++ streets [a])%list.
Proof.
  intros Hn H. rewrite streets_cons. unfold perform in H.
  assert (Hkeep : forall ty, get (a_type a) = ty -> val_in ty street_actions = false ->
            k = n ->
            street_counter k
            /\ dealt_streets k
               = (dealt_streets n
                  ++ (if val_in ty street_actions then ty :: streets [] else streets []))%list).
  { intros ty _ -> ->. split; [exact Hn |]. simpl. now rewrite app_nil_r. }
  destruct (get (a_type a)) as [| b | z | f | ty | vs | d] eqn:Hty;
    try (injection H as _ <-; now apply (Hkeep _ eq_refl)).
  destruct (ty =? "deal_flop")%string eqn:E1.
  { apply String.eqb_eq in E1. subst ty.
    destruct (n =? 0) eqn:E; [| discriminate H]. apply Z.eqb_eq in E. subst n.
    destruct (burn_card st); cbn [uncaught bind] in H; [discriminate H |].
    destruct (join_cards (firstn 3 board)); cbn [bind] in H; [| discriminate H].
    destruct (deal_board _ _); cbn [uncaught bind] in H; [discriminate H |].
    injection H as _ <-. split; [right; now left | reflexivity]. }
  destruct (ty =? "deal_turn")%string eqn:E2.
  { apply String.eqb_eq in E2. subst ty.
    destruct (n =? 3) eqn:E; [| discriminate H]. apply Z.eqb_eq in E. subst n.
    destruct (burn_card st); cbn [uncaught bind] in H; [discriminate H |].
    destruct (deal_one board 3 _); cbn [bind] in H; [| discriminate H].
    injection H as _ <-. split; [right; right; now left | reflexivity]. }
  destruct (ty =? "deal_river")%string eqn:E3.
  { apply String.eqb_eq in E3. subst ty.
    destruct (n =? 4) eqn:E; [| discriminate H]. apply Z.eqb_eq in E. subst n.
    destruct (burn_card st); cbn [uncaught bind] in H; [discriminate H |].
    destruct (deal_one board 4 _); cbn [bind] in H; [| discriminate H].
    injection H as _ <-. split; [right; right; now right | reflexivity]. }
  assert (Hno : val_in (VStr ty) street_actions = false).
  { unfold val_in, mem_string, street_actions. cbn [existsb].
    now rewrite E1, E2, E3. }
  apply (Hkeep _ eq_refl Hno).
  repeat match type of H with
         | (if ?c then _ else _) = _ => destruct c
         | context [uncaught ?call] =>
             destruct call; cbn [uncaught bind] in H; [discriminate H |]
         | (match ?who with Some _ => _ | None => _ end) = _ => destruct who
         | context [nth_error ?l ?i] =>
             destruct (nth_error l i); cbn [bind] in H; [| discriminate H]
         end;
    now injection H as _ <-.
Qed.

Lemma apply_action_streets (self : PokerService) (board : list string)
    (st st' : State) (n k : Z) (a : Action) :
  street_counter n ->
  apply_action self board (st, n) a = Ok (st', k) ->
  street_counter k /\ dealt_streets k = (dealt_streets n ++ streets [a])%list.
Proof.
  intros Hn H.
  destruct (apply_action_applied self board st n a _ H) as [_ [_ [_ [_ Hdo]]]].
  exact (perform_streets board st st' n k a Hn Hdo).
Qed.

Lemma streets_app (l1 l2 : list Action) :
  streets (l1 ++ l2) = (streets l1 ++ streets l2)%list.
Proof. unfold streets. now rewrite map_app, filter_app. Qed.

Lemma process_actions_streets (self : PokerService) (board : list string)
    (acts : list Action) :
  forall st n st' k,
    street_counter n ->
    process_actions self board (st, n) acts = Ok (st', k) ->
    street_counter k /\ dealt_streets k = (dealt_streets n ++ streets acts)%list.
Proof.
  induction acts as [| a acts IH]; intros st n st' k Hn H;
    cbn [process_actions] in H.
  - injection H as _ <-. split; [exact Hn |]. simpl. now rewrite app_nil_r.
  - destruct (apply_action self board (st, n) a) as [[st1 n1] |] eqn:Ha;
      cbn [bind] in H; [| discriminate H].
    destruct (apply_action_streets _ _ _ _ _ _ _ Hn Ha) as [Hn1 Hs1].
    destruct (IH _ _ _ _ Hn1 H) as [Hk Hs]. split; [exact Hk |].
    change (a :: acts) with ([a] ++ acts)%list.
    now rewrite streets_app, app_assoc, <- Hs1.
Qed.

(** X14.  Along a whole action list the streets are dealt in order and at
    most once each: when the engine has applied every action, the street
    actions of the list are "deal_flop", "deal_turn", "deal_river" or a
    prefix of these, and the count of dealt board cards is 0, 3, 4 or 5
    accordingly; a game that evaluates to a result has such an action list,
    and the showdown is attempted only after all three streets. *)
Theorem streets_are_dealt_in_order (self : PokerService) (board : list string)
    (acts : list Action) :
  (forall st st' k,
      process_actions self board (st, 0) acts = Ok (st', k) ->
      street_counter k /\ streets acts = dealt_streets k)
  /\ (forall player_cards stacks0 positions results,
         evaluate_poker_game self player_cards board acts stacks0 positions
           = Ok results ->
         exists j, streets acts = map VStr (firstn j street_actions))
  /\ (forall player_cards stacks0 positions m,
         evaluate_poker_game self player_cards board acts stacks0 positions
           = Err (ShowdownFailed m) ->
         streets acts = map VStr street_actions).
Proof.
  assert (Hrun : forall st st' k,
             process_actions self board (st, 0) acts = Ok (st', k) ->
             street_counter k /\ streets acts = dealt_streets k).
  { intros st st' k H.
    destruct (process_actions_streets self board acts st 0 st' k) as [Hk Hs];
      [now left | exact H |].
    split; [exact Hk | now rewrite Hs]. }
  split; [exact Hrun |]. split.
  - intros player_cards stacks0 positions results H.
    destruct (evaluate_poker_game_success _ _ _ _ _ _ _ H)
      as [_ [_ [_ [created [recorded [st [k [terminal [final H']]]]]]]]].
    destruct H' as [_ [_ [Hp _]]].
    destruct (Hrun _ _ _ Hp) as [_ Hs].
    exists (street_count k). exact Hs.
  - intros player_cards stacks0 positions m H.
    unfold evaluate_poker_game in H.
    destruct (List.length stacks0 =? 6)%nat; [| discriminate H].
    destruct (forallb _ stacks0); [| discriminate H].
    destruct (List.length player_cards <=? 6)%nat; [| discriminate H].
    destruct (List.length board <=? 5)%nat; [| discriminate H].
    destruct (forallb _is_valid_card board) eqn:Hboard; [| discriminate H].
    apply forallb_valid in Hboard.
    destruct (negb (has_duplicates board)); [| discriminate H].
    destruct (check_hole_cards player_cards) as [[] | e0] eqn:Hholes; cbn [bind] in H.
    2:{ destruct (check_hole_cards_error _ _ Hholes) as [[p Hp] | [p Hp]];
          congruence. }
    apply check_hole_cards_ok in Hholes.
    destruct (forallb valid_position positions); [| discriminate H].
    destruct (forallb valid_position_index positions); [| discriminate H].
    destruct (create_state stacks0) as [m0 | created]; cbn [wrapped bind] in H;
      [discriminate H |].
    destruct (deal_hole_cards player_cards board created) as [recorded | e0] eqn:Hd;
      cbn [bind] in H.
    2:{ destruct (deal_hole_cards_error _ _ _ _ Hholes Hd)
          as [[p [m0 Hp]] | [[c [m0 [_ [_ Hp]]]] | [p [_ [_ [_ [_ [Hp _]]]]]]]];
          congruence. }
    destruct (process_actions self board (recorded, 0) acts) as [[st k] | e0] eqn:Hp;
      cbn [bind] in H.
    2:{ injection H as ->.
        destruct (process_actions_error self board acts Hboard recorded 0 _ Hp)
          as [[a [_ Ha]] | [m0 [Hm _]]]; [| discriminate Hm].
        unfold action_error in Ha.
        destruct Ha as [[r Hr] | [Hr | [Hr | [Hr | [Hr _]]]]]; discriminate Hr. }
    destruct (Hrun _ _ _ Hp) as [_ Hs].
    destruct (is_terminal st) as [m0 | terminal]; cbn [uncaught bind] in H;
      [discriminate H |].
    destruct terminal; cbn [negb andb] in H; [discriminate H |].
    destruct (k =? 5) eqn:Hk; [| discriminate H].
    apply Z.eqb_eq in Hk. subst k. exact Hs.
Qed.

End Streets.

(** ** The keys of the dicts that the service builds *)

Lemma str_nat_injective (n m : nat) : str_nat n = str_nat m -> n = m.
Proof.
  unfold str_nat. intros H.
  apply (f_equal NilEmpty.uint_of_string) in H. rewrite !NilEmpty.usu in H.
  injection H as H. now apply DecimalNat.Unsigned.to_uint_inj.
Qed.

Lemma str_nat_keys_NoDup (l : list nat) : NoDup l -> NoDup (map str_nat l).
Proof.
  apply Finite.Injective_map_NoDup. intros n m. apply str_nat_injective.
Qed.

Lemma net_results_keys (initial : list Z) :
  forall final i,
    map fst (net_results i initial final)
    = map str_nat (seq i (List.length (net_results i initial final))).
Proof.
  induction initial as [| a initial IH]; intros [| b final] i; try reflexivity.
  simpl. now rewrite IH.
Qed.

Section DictKeys.
Context {kit : PokerKit}.

Lemma hole_entries_of_keys (st : State) (l : list nat) :
  forall entries,
    hole_entries_of st l = Ok entries ->
    exists held,
      map fst entries = map str_nat held
      /\ (forall i, In i held <->
                    In i l /\ exists cards, get_hole_cards st i = inr cards
                                            /\ cards <> [])
      /\ (NoDup l -> NoDup held).
Proof.
  induction l as [| i l IH]; intros entries H; simpl in H.
  - injection H as <-. exists []. split; [reflexivity |].
    split; [| constructor]. intros i. simpl. tauto.
  - destruct (get_hole_cards st i) as [m | cards] eqn:Hi; cbn [uncaught bind] in H;
      [discriminate H |].
    destruct (hole_entries_of st l) as [rest | e]; cbn [bind] in H;
      [| discriminate H].
    destruct (IH rest eq_refl) as [held [Hkeys [Hin Hnd]]].
    injection H as <-.
    destruct cards as [| c cards].
    + exists held. split; [exact Hkeys |]. split.
      * intros j. rewrite Hin. simpl. split; [tauto |].
        intros [[<- | Hj] Hc]; [| tauto].
        destruct Hc as [cards' [Hc Hne]]. congruence.
      * intros H. inversion H; subst. now apply Hnd.
    + exists (i :: held). cbn [map fst]. rewrite Hkeys.
      split; [reflexivity |]. split.
      * intros j. simpl. rewrite Hin. split.
        -- intros [<- | [Hj Hc]]; [| tauto].
           split; [now left |]. exists (c :: cards). split; [exact Hi | discriminate].
        -- intros [[<- | Hj] Hc]; [now left | tauto].
      * intros H. inversion H as [| ? ? Hnotin Hl]; subst. constructor.
        -- rewrite Hin. tauto.
        -- now apply Hnd.
Qed.

(** X15.  No dict that the service builds under the keys [str(i)] has a
    key written twice.  The results of a game are keyed "0", "1", ... in
    order, one key for each seat that has both a recorded and a final
    stack; the player cards of [_state_to_dict], when the reads succeed,
    are keyed by the seats below 6 that hold cards, each once; the hole
    cards of a new game are keyed "0" to "5".  The numerals of distinct
    numbers are distinct. *)
Theorem dict_keys_are_distinct :
  (forall n m, str_nat n = str_nat m -> n = m)
  /\ (forall self player_cards board acts stacks0 positions results,
         evaluate_poker_game self player_cards board acts stacks0 positions
           = Ok results ->
         map fst results = map str_nat (seq 0 (List.length results))
         /\ NoDup (map fst results))
  /\ (forall st entries,
         hole_entries st = Ok entries ->
         NoDup (map fst entries)
         /\ (forall i, In (str_nat i) (map fst entries)
                       <-> (i < 6)%nat
                           /\ exists cards, get_hole_cards st i = inr cards
                                            /\ cards <> []))
  /\ (forall rt self num_players stack_size game self',
         sound_runtime rt ->
         create_new_game rt self num_players stack_size = Ok (game, self') ->
         map fst (g_player_cards game) = map str_nat (seq 0 6)
         /\ NoDup (map fst (g_player_cards game))).
Proof.
  split; [exact str_nat_injective |]. split; [| split].
  - intros self player_cards board acts stacks0 positions results H.
    destruct (evaluate_poker_game_success _ _ _ _ _ _ _ H)
      as [_ [_ [_ [created [recorded [st [k [terminal [final H']]]]]]]]].
    destruct H' as [_ [_ [_ [_ [_ ->]]]]].
    rewrite net_results_keys. split; [reflexivity |].
    apply str_nat_keys_NoDup, seq_NoDup.
  - intros st entries H. unfold hole_entries in H.
    destruct (hole_entries_of_keys st (seq 0 6) entries H) as [held [Hkeys [Hin Hnd]]].
    rewrite Hkeys. split.
    + apply str_nat_keys_NoDup, Hnd, seq_NoDup.
    + intros i. rewrite in_map_iff. split.
      * intros [j [Hj Hheld]]. apply str_nat_injective in Hj. subst j.
        apply Hin in Hheld. destruct Hheld as [Hseq Hne].
        apply in_seq in Hseq. split; [lia | exact Hne].
      * intros [Hi Hne]. exists i. split; [reflexivity |].
        apply Hin. split; [apply in_seq; lia | exact Hne].
  - intros rt self num_players stack_size game self' sound Hgame.
    destruct (create_new_game_returns rt self self' _ _ game sound Hgame)
      as [dealt [-> [_ [Hlen [Hnd Hstd]]]]].
    destruct (dealt_game_cards rt stack_size dealt Hlen Hnd Hstd)
      as [_ [_ [_ [Hkeys _]]]].
    rewrite Hkeys. split; [reflexivity |].
    apply str_nat_keys_NoDup, seq_NoDup.
Qed.

End DictKeys.

(** ** The action endpoint *)

Section Endpoint.
Context {repository : Repository}.

(** The verdict of the validator on the dict of a stored game. *)
Lemma stored_game_verdict (self : PokerService) (game : PokerHand) (action : Action) :
  (validate_action self (game_dict game) action = Ok (true, None)
   /\ well_shaped (List.length (ph_stacks game)) action)
  \/ (exists r, validate_action self (game_dict game) action = Ok (false, Some r)
                /\ ~ well_shaped (List.length (ph_stacks game)) action).
Proof.
  pose proof (validate_action_accepts_iff self (game_dict game) (ph_stacks game)
                action eq_refl eq_refl) as Hiff.
  destruct (validate_action_returns self (game_dict game) action eq_refl)
    as [v [e Hv]].
  destruct (validate_action_verdict _ _ _ _ _ Hv) as [[-> ->] | [-> [r ->]]].
  - left. split; [exact Hv | now apply Hiff].
  - right. exists r. split; [exact Hv |].
    intros Hshape. apply Hiff in Hshape. congruence.
Qed.

(** X4.  The endpoint returns a game exactly when the lookup finds the
    game, the action is well shaped for the number of its stacks, and the
    save of the game with the action appended succeeds; what it returns is
    the object that the save hands back.  The cards, the earlier actions
    and the stack sizes of the stored game play no part. *)
Theorem add_action_records_well_shaped (self : PokerService) (game_id : string)
    (action : Action) (returned : PokerHand) :
  add_action self game_id action = Ok returned
  <-> exists game,
        get_poker_hand game_id = inr (Some game)
        /\ well_shaped (List.length (ph_stacks game)) action
        /\ create_poker_hand (record_action game action) = inr returned.
Proof.
  unfold add_action. split.
  - intros H.
    destruct (get_poker_hand game_id) as [x | [game |]]; try discriminate H.
    exists game. split; [reflexivity |].
    destruct (stored_game_verdict self game action) as [[Hv Hshape] | [r [Hv _]]];
      rewrite Hv in H; cbn [negb] in H; [| discriminate H].
    split; [exact Hshape |].
    destruct (create_poker_hand (record_action game action)) as [[m | m] | saved];
      try discriminate H.
    now injection H as <-.
  - intros [game [Hget [Hshape Hsave]]]. rewrite Hget.
    apply (validate_action_accepts_iff self (game_dict game) (ph_stacks game)
             action eq_refl eq_refl) in Hshape.
    rewrite Hshape. cbn [negb]. rewrite Hsave. reflexivity.
Qed.

(** X16.  The failures of the endpoint.  An exception of the lookup
    passes through unhandled; a game that is not stored is answered 404;
    an action that [validate_action] rejects is answered 500 with the
    validator's message, because the 400 written for it is raised inside
    the [try] and caught by [except Exception]; an exception of the save
    is answered 500, or 400 when it is a [ValueError].  [validate_action]
    itself never raises on the dict that the endpoint builds. *)
Theorem add_action_failures (self : PokerService) (game_id : string)
    (action : Action) (e : error) :
  add_action self game_id action = Err e ->
  (exists x, get_poker_hand game_id = inl x /\ e = Uncaught (str_exn x))
  \/ (get_poker_hand game_id = inr None /\ e = GameNotFound)
  \/ (exists game r,
         get_poker_hand game_id = inr (Some game)
         /\ ~ well_shaped (List.length (ph_stacks game)) action
         /\ e = Http500 (BadRequest (Some r)))
  \/ (exists game m,
         get_poker_hand game_id = inr (Some game)
         /\ well_shaped (List.length (ph_stacks game)) action
         /\ create_poker_hand (record_action game action) = inl (OtherException m)
         /\ e = Http500 (RepositoryError m))
  \/ (exists game m,
         get_poker_hand game_id = inr (Some game)
         /\ well_shaped (List.length (ph_stacks game)) action
         /\ create_poker_hand (record_action game action) = inl (ValueError m)
         /\ e = Http400 (RepositoryError m)).
Proof.
  unfold add_action. intros H.
  destruct (get_poker_hand game_id) as [x | [game |]].
  - injection H as <-. left. now exists x.
  - right. right.
    destruct (stored_game_verdict self game action) as [[Hv Hshape] | [r [Hv Hshape]]];
      rewrite Hv in H; cbn [negb] in H.
    + right.
      destruct (create_poker_hand (record_action game action)) as [[m | m] | saved]
        eqn:Hsave; [| | discriminate H]; injection H as <-.
      * right. now exists game, m.
      * left. now exists game, m.
    + injection H as <-. left. now exists game, r.
  - injection H as <-. right. left. now split.
Qed.

End Endpoint.

(** ** The first failing action *)

Section FirstFailure.
Context {kit : PokerKit}.

Lemma process_actions_app (self : PokerService) (board : list string)
    (pre post : list Action) :
  forall loop,
    process_actions self board loop (pre ++ post)
    = (loop' <- process_actions self board loop pre ;;
       process_actions self board loop' post).
Proof.
  induction pre as [| a pre IH]; intros loop; cbn [app process_actions bind];
    [reflexivity |].
  destruct (apply_action self board loop a) as [loop1 | e]; cbn [bind];
    [apply IH | reflexivity].
Qed.

(** X17.  The actions are applied one after the other, each from the state
    its predecessors left, and the first one that fails ends the loop: an
    action list that fails in the loop fails in the same way whatever
    actions are appended to it, so an action behind the failing one is
    neither validated nor applied.  For the whole evaluation this holds of
    every error that the service raises before or in the loop; "Showdown
    failed" and an exception that passes through unwrapped can come from
    the statements after the loop. *)
Theorem first_failure_ends_the_game (self : PokerService)
    (player_cards : list (Z * list string)) (board : list string)
    (pre post : list Action) (stacks0 : list Z) (positions : list (string * Z)) :
  (forall loop e,
      process_actions self board loop pre = Err e ->
      process_actions self board loop (pre ++ post) = Err e)
  /\ (forall e,
         evaluate_poker_game self player_cards board pre stacks0 positions = Err e ->
         (forall m, e <> ShowdownFailed m) -> (forall m, e <> Uncaught m) ->
         evaluate_poker_game self player_cards board (pre ++ post) stacks0 positions
         = Err e).
Proof.
  split.
  - intros loop e H. rewrite process_actions_app, H. reflexivity.
  - unfold evaluate_poker_game. intros e H Hshow Hlib.
    repeat match type of H with
           | (if ?c then _ else _) = _ => destruct c; [| exact H]
           end.
    destruct (check_hole_cards player_cards); cbn [bind] in *; [| exact H].
    repeat match type of H with
           | (if ?c then _ else _) = _ => destruct c; [| exact H]
           end.
    destruct (create_state stacks0) as [m | created]; cbn [wrapped bind] in *;
      [exact H |].
    destruct (deal_hole_cards player_cards board created) as [recorded |];
      cbn [bind] in *; [| exact H].
    rewrite process_actions_app.
    destruct (process_actions self board (recorded, 0) pre) as [[st k] | e0];
      cbn [bind] in *; [exfalso | exact H].
    destruct (is_terminal st) as [m | terminal]; cbn [uncaught bind] in H.
    { injection H as <-. now apply (Hlib m). }
    destruct (negb terminal && (k =? 5)); [| discriminate H].
    destruct (show_or_muck_hole_cards st) as [m | final]; cbn [wrapped bind] in H;
      [| discriminate H].
    injection H as <-. now apply (Hshow m).
Qed.

End FirstFailure.

(** ** Runs on the sample inputs *)

(** C4, counterexample.  The stored sample game seats the dealer at 0 and
    the blinds at 1 and 2.  [validate_action] accepts, on the dict that the
    endpoint builds from the game: a call by seat 5 after seat 5 has
    folded; a fold by seat 5 as the first action; a "deal_turn" when no
    flop has been dealt; a check by seat 4 after a bet of 100 by seat 3;
    and a raise to 1 after that bet. *)
Lemma validator_accepts_illegal_actions :
  validate_action svc0 (game_dict (stored_game_after [fold_by_5])) call_by_5
  = Ok (true, None)
  /\ validate_action svc0 (game_dict stored_game) fold_by_5 = Ok (true, None)
  /\ validate_action svc0 (game_dict stored_game) deal_turn_first = Ok (true, None)
  /\ validate_action svc0 (game_dict (stored_game_after [bet_100_by_3])) check_by_4
     = Ok (true, None)
  /\ validate_action svc0 (game_dict (stored_game_after [bet_100_by_3])) raise_1_by_4
     = Ok (true, None).
Proof.
  repeat split; vm_compute; reflexivity.
Qed.

(** C5, counterexample.  Seat 3 of the stored sample game has a stack of
    1000; [validate_action] accepts its bet of 5000, and the endpoint, on a
    repository that holds the game, appends the bet to the game and
    returns it. *)
Lemma validator_accepts_bet_above_stack :
  nth_error (ph_stacks stored_game) 3 = Some 1000
  /\ validate_action svc0 (game_dict stored_game) bet_5000_by_3 = Ok (true, None)
  /\ @add_action (stored [stored_game]) svc0
       "123e4567-e89b-12d3-a456-426614174000" bet_5000_by_3
     = Ok (stored_game_after [bet_5000_by_3]).
Proof.
  repeat split; vm_compute; reflexivity.
Qed.

Lemma sound_rt0 : sound_runtime rt0.
Proof.
  constructor.
  - apply Permutation_refl.
  - apply Permutation_refl.
  - intros l. apply Permutation_sym, Permutation_rev.
Defined.

Lemma bet_amount_forwarded_unchanged_witness :
  @apply_action bare_kit svc0 sample_board (six_stacks, 0) bet_5000_by_3
  = (_ <- @_state_to_dict bare_kit svc0 six_stacks ;;
     st' <- uncaught (@complete_bet_or_raise_to bare_kit (VInt 5000) six_stacks) ;;
     Ok (st', 0)).
Proof.
  refine (proj1 (proj2 (@bet_amount_forwarded_unchanged bare_kit svc0 sample_board
                          six_stacks 0 (VInt 3) (VInt 5000) _ _))).
  - exists 3. split; [reflexivity | simpl; lia].
  - left. exists 5000. split; [reflexivity | lia].
Defined.

Lemma validate_action_accepts_float_amount_witness :
  validate_action svc0 sample_dict
    (mk_action "bet" (Some (VInt 0)) (Some (VFloat half))) = Ok (true, None).
Proof.
  apply (validate_action_accepts_float_amount svc0 sample_dict six_stacks "bet"
           (VInt 0) half).
  - reflexivity.
  - reflexivity.
  - left. reflexivity.
  - exists 0. split; [reflexivity | simpl; lia].
  - reflexivity.
Defined.

Lemma create_new_game_never_exhausts_deck_witness :
  List.length (_create_standard_deck rt0) = 52%nat
  /\ (forall e, create_new_game rt0 svc0 6 1000 = Err e ->
                e = OnlySixPlayerGames \/ e = StackSizePositive)
  /\ (6 = 6 -> 0 < 1000 ->
      exists game self',
        create_new_game rt0 svc0 6 1000 = Ok (game, self')
        /\ List.length (deck self') = 32%nat).
Proof.
  apply (create_new_game_never_exhausts_deck rt0 sound_rt0 svc0 6 1000).
Defined.


Lemma create_new_game_cards_distinct_witness :
  exists game self',
    create_new_game rt0 svc0 6 1000 = Ok (game, self')
    /\ map fst (g_player_cards game) = ["0"; "1"; "2"; "3"; "4"; "5"]
    /\ List.length (flat_map snd (g_player_cards game)) = 12%nat
    /\ List.length (g_board_cards game) = 5%nat
    /\ NoDup (flat_map snd (g_player_cards game) ++ g_board_cards game).
Proof.
  apply (create_new_game_cards_distinct rt0 sound_rt0 svc0 1000). lia.
Defined.

Lemma cross_duplicates_rejected_witness :
  exists e,
    @evaluate_poker_game bare_kit svc0 [ (0, ["As"; "Kd"]); (1, ["Qc"; "As"]) ]
      sample_board [] six_stacks dealer_positions = Err e.
Proof.
  apply (@cross_duplicates_rejected bare_kit).
  right. exists [], 0, ["As"; "Kd"], [ (1, ["Qc"; "As"]) ], "As".
  split; [reflexivity |]. split; simpl; tauto.
Defined.

Lemma standard_deck_complete_witness :
  __init__ rt0 = Ok {| deck := _create_standard_deck rt0 |}
  /\ List.length (_create_standard_deck rt0) = 52%nat
  /\ NoDup (_create_standard_deck rt0)
  /\ (forall c, In c (_create_standard_deck rt0) <-> standard_card c)
  /\ (forall s, _is_valid_card s = true
                <-> In s (map token (_create_standard_deck rt0))).
Proof.
  apply (standard_deck_complete rt0 sound_rt0).
Defined.

Lemma create_new_game_outcome_witness :
  create_new_game rt0 svc0 6 1000
  = Ok (new_game0, {| deck := firstn 32 (shuffle rt0 (_create_standard_deck rt0)) |}).
Proof.
  apply (create_new_game_outcome rt0 sound_rt0 svc0 6 1000).
Defined.

(** With hole cards the evaluation stops at [str] of the first hole card
    when that call raises. *)
Lemma evaluate_poker_game_failures_witness :
  argument_error (Uncaught "AttributeError: 'str' object has no attribute 'name'")
  \/ dealing_error (Uncaught "AttributeError: 'str' object has no attribute 'name'")
  \/ (exists a, In a [call_by_3]
                /\ action_error a
                     (Uncaught "AttributeError: 'str' object has no attribute 'name'"))
  \/ (exists m, Uncaught "AttributeError: 'str' object has no attribute 'name'"
                = ShowdownFailed m)
  \/ (exists m, Uncaught "AttributeError: 'str' object has no attribute 'name'"
                = Uncaught m
                /\ @raised_by_pokerkit bare_kit m).
Proof.
  apply (@evaluate_poker_game_failures bare_kit svc0 sample_cards sample_board
           [call_by_3] six_stacks dealer_positions).
  vm_compute. reflexivity.
Defined.

Lemma new_game_passes_evaluator_checks_witness :
  (exists m, Uncaught "AttributeError: 'str' object has no attribute 'name'"
             = FailedCreateState m)
  \/ (exists p m, Uncaught "AttributeError: 'str' object has no attribute 'name'"
                  = FailedDeal p m)
  \/ (exists a, In a [bet_5000_by_3]
                /\ action_error a
                     (Uncaught "AttributeError: 'str' object has no attribute 'name'"))
  \/ (exists m, Uncaught "AttributeError: 'str' object has no attribute 'name'"
                = ShowdownFailed m)
  \/ (exists m, Uncaught "AttributeError: 'str' object has no attribute 'name'"
                = Uncaught m
                /\ @raised_by_pokerkit bare_kit m).
Proof.
  apply (@new_game_passes_evaluator_checks bare_kit rt0 svc0
           {| deck := firstn 32 (shuffle rt0 (_create_standard_deck rt0)) |} svc0
           6 1000 new_game0 (stored_hole_cards new_game0) [bet_5000_by_3]).
  - exact sound_rt0.
  - vm_compute. reflexivity.
  - vm_compute. reflexivity.
  - vm_compute. reflexivity.
Defined.

Lemma positions_only_validated_witness :
  @evaluate_poker_game bare_kit svc0 sample_cards sample_board [call_by_3]
    six_stacks dealer_positions
  = @evaluate_poker_game bare_kit svc0 sample_cards sample_board [call_by_3]
      six_stacks [ ("bb", 5) ].
Proof.
  apply (@positions_only_validated bare_kit); reflexivity.
Defined.

Lemma named_player_is_ignored_witness :
  @apply_action bare_kit svc0 sample_board (six_stacks, 0) fold_by_3
  = @apply_action bare_kit svc0 sample_board (six_stacks, 0) fold_by_5.
Proof.
  apply (@named_player_is_ignored bare_kit svc0 sample_board six_stacks 0
           (Some (VStr "fold")) None (VInt 3) (VInt 5)).
  - exists 3. split; [reflexivity | simpl; lia].
  - exists 5. split; [reflexivity | simpl; lia].
Defined.

(** A bet without an amount on the stored sample game is answered 500. *)
Lemma add_action_failures_witness :
  (exists x, @get_poker_hand (stored [stored_game])
               "123e4567-e89b-12d3-a456-426614174000" = inl x
             /\ Http500 (BadRequest (Some AmountRequired)) = Uncaught (str_exn x))
  \/ (@get_poker_hand (stored [stored_game])
        "123e4567-e89b-12d3-a456-426614174000" = inr None
      /\ Http500 (BadRequest (Some AmountRequired)) = GameNotFound)
  \/ (exists game r,
         @get_poker_hand (stored [stored_game])
           "123e4567-e89b-12d3-a456-426614174000" = inr (Some game)
         /\ ~ well_shaped (List.length (ph_stacks game)) bet_without_amount
         /\ Http500 (BadRequest (Some AmountRequired))
            = Http500 (BadRequest (Some r)))
  \/ (exists game m,
         @get_poker_hand (stored [stored_game])
           "123e4567-e89b-12d3-a456-426614174000" = inr (Some game)
         /\ well_shaped (List.length (ph_stacks game)) bet_without_amount
         /\ @create_poker_hand (stored [stored_game])
              (record_action game bet_without_amount) = inl (OtherException m)
         /\ Http500 (BadRequest (Some AmountRequired)) = Http500 (RepositoryError m))
  \/ (exists game m,
         @get_poker_hand (stored [stored_game])
           "123e4567-e89b-12d3-a456-426614174000" = inr (Some game)
         /\ well_shaped (List.length (ph_stacks game)) bet_without_amount
         /\ @create_poker_hand (stored [stored_game])
              (record_action game bet_without_amount) = inl (ValueError m)
         /\ Http500 (BadRequest (Some AmountRequired)) = Http400 (RepositoryError m)).
Proof.
  apply (@add_action_failures (stored [stored_game]) svc0
           "123e4567-e89b-12d3-a456-426614174000" bet_without_amount).
  vm_compute. reflexivity.
Defined.
